(** * Sales dashboard (src/app.py): a shallow embedding of the analytics
    functions, the period calculator and the signed, cached API client. *)

From Stdlib Require Import ZArith QArith Qround Lqa List String Ascii Bool Lia Sorted Permutation.
Import ListNotations.
Open Scope string_scope.
Open Scope list_scope.

(* ------------------------------------------------------------------ *)
(** ** Records as the Unleashed API returns them.

    A JSON key that may be absent is an [option]; [dget o d] is Python's
    [obj.get(key, d)]. *)

Definition dget {A} (o : option A) (d : A) : A :=
  match o with Some a => a | None => d end.

Record customer := { CustomerCode : option string; CustomerName : option string }.

(** [SalesPerson] of an order: [None] stands for an absent key, a null and
    the empty dict, all falsy in [if not salesperson]; [Some] is a non-empty dict. *)
Record salesperson := { Guid : option string; FullName : option string }.

Record product := {
  ProductCode : option string;
  ProductDescription : option string;
  DefaultPurchasePrice : option Q;
  AverageLandPrice : option Q }.

Record order_line := {
  Product : option product;
  LineTotal : option Q;
  OrderQuantity : option Q;
  UnitCost : option Q }.

(** Orders and credit notes share this shape (credit notes have no lines). *)
Record order := {
  Customer : option customer;
  SubTotal : option Q;
  SalesOrderLines : option (list order_line);
  SalesPerson : option salesperson }.

Definition empty_customer : customer := {| CustomerCode := None; CustomerName := None |}.
Definition empty_product : product :=
  {| ProductCode := None; ProductDescription := None;
     DefaultPurchasePrice := None; AverageLandPrice := None |}.

(* ------------------------------------------------------------------ *)
(** ** Python dicts with string keys, in insertion order. *)

Module Dict.

Fixpoint get {A} (k : string) (d : list (string * A)) : option A :=
  match d with
  | [] => None
  | (k', v) :: t => if String.eqb k k' then Some v else get k t
  end.

Definition mem {A} (k : string) (d : list (string * A)) : bool :=
  match get k d with Some _ => true | None => false end.

(** [d[k] = v]: overwrite in place, or append a new key at the end. *)
Fixpoint set {A} (k : string) (v : A) (d : list (string * A)) : list (string * A) :=
  match d with
  | [] => [(k, v)]
  | (k', v') :: t => if String.eqb k k' then (k', v) :: t else (k', v') :: set k v t
  end.

(** [d[k] = f(d[k])] for a key present in [d]. *)
Fixpoint update {A} (k : string) (f : A -> A) (d : list (string * A)) : list (string * A) :=
  match d with
  | [] => []
  | (k', v) :: t => if String.eqb k k' then (k', f v) :: t else (k', v) :: update k f t
  end.

End Dict.

(* ------------------------------------------------------------------ *)
(** ** Money. Amounts are rationals; [Qsum] is Python's [sum], adding
    left to right from 0, the order in which the [+=] loops accumulate too.
    The program adds floats: a fact stated with [Qsum] carries over to it
    when both sides add the same amounts in the same order. *)

Definition Qsum (l : list Q) : Q := fold_left Qplus l 0%Q.

Lemma fold_left_Qplus_acc (l : list Q) (a : Q) : fold_left Qplus l a == a + fold_left Qplus l 0.
Proof.
  revert a. induction l as [|x t IH]; intros a; simpl; [ring|].
  rewrite (IH (a + x)), (IH (0 + x)). ring.
Qed.

Lemma Qsum_cons (a : Q) (l : list Q) : Qsum (a :: l) == a + Qsum l.
Proof. unfold Qsum. simpl. rewrite fold_left_Qplus_acc. ring. Qed.

Lemma Qsum_nil : Qsum [] = 0.
Proof. reflexivity. Qed.

Arguments Qsum : simpl never.

Ltac qsum_simpl := simpl; rewrite ?Qsum_cons, ?Qsum_nil.

(** Python's [a < b] on numbers. *)
Definition Qltb (a b : Q) : bool := negb (Qle_bool b a).

(** Python truthiness of a number and [a or b]. *)
Definition truthy (a : Q) : bool := negb (Qeq_bool a 0).
Definition py_or (a b : Q) : Q := if truthy a then a else b.

Definition calculate_total_sales (orders : list order) : Q :=
  Qsum (map (fun o => dget (SubTotal o) 0%Q) orders).

Definition calculate_total_credit_notes (credit_notes : list order) : Q :=
  Qsum (map (fun n => dget (SubTotal n) 0%Q) credit_notes).

(* ------------------------------------------------------------------ *)
(** ** The grouping loops.

    Every grouping function of app.py is the loop
<<
    for x in xs:
        (skip x, or compute its key k)
        if k not in data: data[k] = <fresh row for x>
        data[k][...] += ...
>>
    [group_by key init acc] is that loop; [key x = None] is the [continue]. *)

Section Grouping.
Context {X R : Type} (key : X -> option string) (init : X -> R) (acc : X -> R -> R).

Definition group_step (data : list (string * R)) (x : X) : list (string * R) :=
  match key x with
  | None => data
  | Some k =>
      let data := if Dict.mem k data then data else Dict.set k (init x) data in
      Dict.update k (acc x) data
  end.

Definition group_by (xs : list X) : list (string * R) := fold_left group_step xs [].

End Grouping.

(** A customer/product row [{'name': ..., 'revenue': ...}]. *)
Record rev_row := { name : string; revenue : Q }.

Definition customer_of (o : order) : customer := dget (Customer o) empty_customer.
Definition customer_code (o : order) : string := dget (CustomerCode (customer_of o)) "Unknown".
Definition customer_name (o : order) : string := dget (CustomerName (customer_of o)) "Unknown".
Definition order_subtotal (o : order) : Q := dget (SubTotal o) 0%Q.

(** [get_customer_revenue], nested in [get_top_customers_comparison]; the
    one nested in [compare_customer_growth] has the same body. *)
Definition get_customer_revenue (orders : list order) : list (string * rev_row) :=
  group_by (fun o => Some (customer_code o))
           (fun o => {| name := customer_name o; revenue := 0 |})
           (fun o r => {| name := name r; revenue := revenue r + order_subtotal o |})
           orders.

Definition order_lines (o : order) : list order_line := dget (SalesOrderLines o) [].
Definition line_product (l : order_line) : product := dget (Product l) empty_product.
Definition line_code (l : order_line) : string := dget (ProductCode (line_product l)) "Unknown".
Definition line_name (l : order_line) : string := dget (ProductDescription (line_product l)) "Unknown".
Definition line_total (l : order_line) : Q := dget (LineTotal l) 0%Q.

(** [get_product_revenue], nested in [get_top_products_comparison]: the
    inner loop over [order.get('SalesOrderLines', [])] inside the loop over orders. *)
Definition get_product_revenue (orders : list order) : list (string * rev_row) :=
  fold_left
    (fun data o =>
       fold_left
         (group_step (fun l => Some (line_code l))
                     (fun l => {| name := line_name l; revenue := 0 |})
                     (fun l r => {| name := name r; revenue := revenue r + line_total l |}))
         (order_lines o) data)
    orders [].

(** A salesperson row [{'name': ..., 'revenue': ..., 'orders': ...}]. *)
Record sp_row := { sp_name : string; sp_revenue : Q; sp_orders : Z }.

Definition sp_key (o : order) : option string :=
  match SalesPerson o with
  | None => None                                   (* if not salesperson: continue *)
  | Some sp => Some (dget (Guid sp) "Unknown")
  end.

Definition sp_fullname (o : order) : string :=
  match SalesPerson o with Some sp => dget (FullName sp) "Unknown" | None => "Unknown" end.

(** [salesperson_data] as built by the loop of [get_salesperson_revenue]. *)
Definition salesperson_data (orders : list order) : list (string * sp_row) :=
  group_by sp_key
           (fun o => {| sp_name := sp_fullname o; sp_revenue := 0; sp_orders := 0 |})
           (fun o r => {| sp_name := sp_name r; sp_revenue := sp_revenue r + order_subtotal o;
                          sp_orders := sp_orders r + 1 |})
           orders.

(* ------------------------------------------------------------------ *)
(** ** Period-over-period comparison tables. *)

(** The percentage change of every comparison table: the expression
    [(change / previous * 100) if previous > 0 else (100 if current > 0 else 0)]
    written out in [get_top_customers_comparison], [get_top_products_comparison],
    [get_top_products_by_margin_comparison], [compare_customer_growth] and in
    the lambda of the salesperson table of [main]. *)
Definition change_pct (current previous : Q) : Q :=
  if Qltb 0 previous then (current - previous) / previous * 100
  else if Qltb 0 current then 100 else 0.

(** The summary cards of [main] ([sales_change_percent], [credit_change_percent]):
    [(change / previous * 100) if previous > 0 else 0]. *)
Definition summary_change_percent (current previous : Q) : Q :=
  if Qltb 0 previous then (current - previous) / previous * 100 else 0.

Definition sales_change_percent (current_orders previous_orders : list order) : Q :=
  summary_change_percent (calculate_total_sales current_orders)
                         (calculate_total_sales previous_orders).

Definition credit_change_percent (current_notes previous_notes : list order) : Q :=
  summary_change_percent (calculate_total_credit_notes current_notes)
                         (calculate_total_credit_notes previous_notes).

(** [set(current) | set(previous)]: Python iterates a set in an order of its
    own; this model takes the current keys, then the previous-only keys. *)
Definition all_keys {R} (cur prev : list (string * R)) : list string :=
  map fst cur ++ filter (fun k => negb (Dict.mem k cur)) (map fst prev).

Record cmp_row := {
  Label : string; Current : Q; Previous : Q; Change : Q; ChangePct : Q }.

Definition unknown_row : rev_row := {| name := "Unknown"; revenue := 0 |}.

Definition pick_name (c p : string) : string :=
  if negb (String.eqb c "Unknown") then c else p.

(** The [for code in all_...] loop building [comparison]. *)
Definition compare_revenue (cur prev : list (string * rev_row)) : list cmp_row :=
  map (fun k =>
         let c := dget (Dict.get k cur) unknown_row in
         let p := dget (Dict.get k prev) unknown_row in
         {| Label := pick_name (name c) (name p);
            Current := revenue c; Previous := revenue p;
            Change := revenue c - revenue p;
            ChangePct := change_pct (revenue c) (revenue p) |})
      (all_keys cur prev).

(** [df.nlargest(n, col)] with [keep='first']: rows by decreasing [col],
    ties in their original order, the first [n]. A DataFrame built from an
    empty list has no column [col]: the call raises [KeyError] ([None]). *)
Section NLargest.
Context {A : Type} (col : A -> Q).

Fixpoint insert_desc (x : A) (l : list A) : list A :=
  match l with
  | [] => [x]
  | y :: t => if Qle_bool (col x) (col y) then y :: insert_desc x t else x :: y :: t
  end.

Definition sort_desc (rows : list A) : list A :=
  fold_left (fun acc x => insert_desc x acc) rows [].

Definition nlargest (n : nat) (rows : list A) : option (list A) :=
  match rows with
  | [] => None
  | _ => Some (firstn n (sort_desc rows))
  end.

End NLargest.

Definition get_top_customers_comparison (current_orders previous_orders : list order)
    (limit : nat) : option (list cmp_row) :=
  nlargest Current limit
    (compare_revenue (get_customer_revenue current_orders)
                     (get_customer_revenue previous_orders)).

Definition get_top_products_comparison (current_orders previous_orders : list order)
    (limit : nat) : option (list cmp_row) :=
  nlargest Current limit
    (compare_revenue (get_product_revenue current_orders)
                     (get_product_revenue previous_orders)).

(** [compare_customer_growth] returns [(growth, decline)];
    [nsmallest(n, 'Change')] is [nlargest] on the negated column. *)
Definition compare_customer_growth (current_orders previous_orders : list order)
    (limit : nat) : option (list cmp_row) * option (list cmp_row) :=
  let comparison := compare_revenue (get_customer_revenue current_orders)
                                    (get_customer_revenue previous_orders) in
  (nlargest Change limit comparison, nlargest (fun r => - Change r) limit comparison).

(* ------------------------------------------------------------------ *)
(** ** Margins. *)

(** [{p['ProductCode']: p.get('DefaultPurchasePrice', 0) for p in products_list}];
    a product without [ProductCode] raises [KeyError] ([None]). *)
Definition product_costs (products_list : list product) : option (list (string * Q)) :=
  fold_left
    (fun acc p =>
       match acc, ProductCode p with
       | Some d, Some c => Some (Dict.set c (dget (DefaultPurchasePrice p) 0%Q) d)
       | _, _ => None
       end)
    products_list (Some []).

(** [unit_cost] of a line in [get_product_margin]. *)
Definition line_unit_cost (pc : list (string * Q)) (l : order_line) : Q :=
  let unit_cost := dget (UnitCost l) 0%Q in
  if Qeq_bool unit_cost 0 then
    let product_obj := line_product l in
    py_or (py_or (dget (DefaultPurchasePrice product_obj) 0%Q)
                 (dget (AverageLandPrice product_obj) 0%Q))
          (dget (Dict.get (line_code l) pc) 0%Q)
  else unit_cost.

Definition line_quantity (l : order_line) : Q := dget (OrderQuantity l) 0%Q.

(** [margin = line_total - quantity * unit_cost]. *)
Definition line_margin (pc : list (string * Q)) (l : order_line) : Q :=
  line_total l - line_quantity l * line_unit_cost pc l.

Record margin_row := { m_name : string; m_margin : Q; m_revenue : Q }.

Definition get_product_margin (pc : list (string * Q)) (orders : list order)
    : list (string * margin_row) :=
  fold_left
    (fun data o =>
       fold_left
         (group_step (fun l => Some (line_code l))
                     (fun l => {| m_name := line_name l; m_margin := 0; m_revenue := 0 |})
                     (fun l r => {| m_name := m_name r; m_margin := m_margin r + line_margin pc l;
                                    m_revenue := m_revenue r + line_total l |}))
         (order_lines o) data)
    orders [].

Record margin_cmp_row := {
  mc_Product : string; CurrentMargin : Q; PreviousMargin : Q;
  MarginPct : Q; mc_Change : Q; mc_ChangePct : Q }.

Definition unknown_margin_row : margin_row := {| m_name := "Unknown"; m_margin := 0; m_revenue := 0 |}.

Definition compare_margin (cur prev : list (string * margin_row)) : list margin_cmp_row :=
  map (fun k =>
         let c := dget (Dict.get k cur) unknown_margin_row in
         let p := dget (Dict.get k prev) unknown_margin_row in
         {| mc_Product := pick_name (m_name c) (m_name p);
            CurrentMargin := m_margin c; PreviousMargin := m_margin p;
            MarginPct := if Qltb 0 (m_revenue c) then m_margin c / m_revenue c * 100 else 0;
            mc_Change := m_margin c - m_margin p;
            mc_ChangePct := change_pct (m_margin c) (m_margin p) |})
      (all_keys cur prev).

Definition get_top_products_by_margin_comparison (current_orders previous_orders : list order)
    (products_list : list product) (limit : nat) : option (list margin_cmp_row) :=
  match product_costs products_list with
  | None => None
  | Some pc =>
      nlargest CurrentMargin limit
        (compare_margin (get_product_margin pc current_orders)
                        (get_product_margin pc previous_orders))
  end.

(* ------------------------------------------------------------------ *)
(** ** Calendar dates, as Python's [datetime] computes with them.

    Only the date part of [datetime.now()] matters: the code formats every
    bound with [strftime('%Y-%m-%d')] and [(today - quarter_start).days]
    drops the time of day (it is less than one day). *)

Open Scope Z_scope.

Record date := { year : Z; month : Z; day : Z }.

Definition mkdate (y m d : Z) : date := {| year := y; month := m; day := d |}.

(** [datetime._is_leap]. *)
Definition is_leap (y : Z) : bool :=
  (y mod 4 =? 0) && (negb (y mod 100 =? 0) || (y mod 400 =? 0)).

(** [datetime._days_in_month]. *)
Definition days_in_month (y m : Z) : Z :=
  if m =? 2 then (if is_leap y then 29 else 28)
  else if (m =? 4) || (m =? 6) || (m =? 9) || (m =? 11) then 30
  else 31.

(** [datetime._days_before_year]. *)
Definition days_before_year (y : Z) : Z :=
  let y := y - 1 in y * 365 + y / 4 - y / 100 + y / 400.

(** [datetime._days_before_month], from the table [_DAYS_BEFORE_MONTH]. *)
Definition days_before_month (y m : Z) : Z :=
  nth (Z.to_nat m) [-1; 0; 31; 59; 90; 120; 151; 181; 212; 243; 273; 304; 334] 0
  + (if (m >? 2) && is_leap y then 1 else 0).

(** [date.toordinal()] ([datetime._ymd2ord]). *)
Definition toordinal (d : date) : Z :=
  days_before_year (year d) + days_before_month (year d) (month d) + day d.

(** The range check of the [datetime] constructor ([MINYEAR] = 1, [MAXYEAR] = 9999). *)
Definition valid_date (d : date) : Prop :=
  1 <= year d <= 9999 /\ 1 <= month d <= 12 /\ 1 <= day d <= days_in_month (year d) (month d).

Definition valid_dateb (d : date) : bool :=
  (1 <=? year d) && (year d <=? 9999) && (1 <=? month d) && (month d <=? 12)
  && (1 <=? day d) && (day d <=? days_in_month (year d) (month d)).

(** [datetime(y, m, d)]: [ValueError] out of range ([None]). *)
Definition datetime_new (y m d : Z) : option date :=
  if valid_dateb (mkdate y m d) then Some (mkdate y m d) else None.

(** [d.replace(day=k)]: [ValueError] when the month has no day [k]. *)
Definition replace_day (d : date) (k : Z) : option date :=
  datetime_new (year d) (month d) k.

(** [d - timedelta(days=1)] on a valid date; [OverflowError] below 0001-01-01. *)
Definition sub_one_day (d : date) : option date :=
  if 1 <? day d then Some (mkdate (year d) (month d) (day d - 1))
  else if 1 <? month d then Some (mkdate (year d) (month d - 1) (days_in_month (year d) (month d - 1)))
  else if 1 <? year d then Some (mkdate (year d - 1) 12 31)
  else None.

(** [d + timedelta(days=1)] on a valid date; [OverflowError] above 9999-12-31. *)
Definition next_day (d : date) : option date :=
  if day d <? days_in_month (year d) (month d) then Some (mkdate (year d) (month d) (day d + 1))
  else if month d <? 12 then Some (mkdate (year d) (month d + 1) 1)
  else if year d <? 9999 then Some (mkdate (year d + 1) 1 1)
  else None.

(** [d + timedelta(days=n)], one day at a time. *)
Fixpoint add_days (d : date) (n : nat) : option date :=
  match n with
  | O => Some d
  | S n => match next_day d with Some d' => add_days d' n | None => None end
  end.

(** The [Monthly] branch of [main]: [(current_start, current_end,
    previous_start, previous_end)]; [None] is an uncaught exception. *)
Definition monthly_periods (today : date) : option (date * date * date * date) :=
  match replace_day today 1 with
  | None => None
  | Some first =>
      match sub_one_day first with
      | None => None
      | Some previous_month =>
          match replace_day previous_month 1 with
          | None => None
          | Some previous_start =>
              (* try: previous_month.replace(day=today.day)
                 except ValueError: previous_month *)
              let previous_end :=
                match replace_day previous_month (day today) with
                | Some e => e
                | None => previous_month
                end in
              Some (first, today, previous_start, previous_end)
          end
      end
  end.

(** The [Quarterly] branch of [main]. *)
Definition quarterly_periods (today : date) : option (date * date * date * date) :=
  let quarter := (month today - 1) / 3 in
  let quarter_start_month := quarter * 3 + 1 in
  match datetime_new (year today) quarter_start_month 1 with
  | None => None
  | Some quarter_start_date =>
      let days_into_quarter := toordinal today - toordinal quarter_start_date in
      let '(prev_year, prev_quarter) :=
        if quarter =? 0 then (year today - 1, 3) else (year today, quarter - 1) in
      let prev_quarter_start_month := prev_quarter * 3 + 1 in
      match datetime_new prev_year prev_quarter_start_month 1 with
      | None => None
      | Some prev_quarter_start_date =>
          match add_days prev_quarter_start_date (Z.to_nat days_into_quarter) with
          | None => None
          | Some previous_end_date =>
              Some (quarter_start_date, today, prev_quarter_start_date, previous_end_date)
          end
      end
  end.

(* ------------------------------------------------------------------ *)
(** ** Strings of the HTTP layer. *)

(** [str(n)] for an integer. *)
Fixpoint digits_rev (fuel : nat) (n : Z) (acc : string) : string :=
  match fuel with
  | O => acc
  | S f =>
      let acc := String (ascii_of_nat (48 + Z.to_nat (n mod 10))) acc in
      if n <? 10 then acc else digits_rev f (n / 10) acc
  end.

Definition str_Z (n : Z) : string :=
  if n <? 0 then String.append "-" (digits_rev (S (Z.to_nat (Z.log2 (- n)))) (- n) "")
  else digits_rev (S (Z.to_nat (Z.log2 n))) n "".

Definition hex_digit (n : nat) : ascii :=
  ascii_of_nat (if Nat.ltb n 10 then 48 + n else 55 + n).

(** The characters [urllib.parse.quote_plus] leaves alone. *)
Definition always_safe (c : ascii) : bool :=
  let n := nat_of_ascii c in
  (Nat.leb 48 n && Nat.leb n 57) || (Nat.leb 65 n && Nat.leb n 90)
  || (Nat.leb 97 n && Nat.leb n 122)
  || Ascii.eqb c "_" || Ascii.eqb c "." || Ascii.eqb c "-" || Ascii.eqb c "~".

(** [urllib.parse.quote_plus] on a byte string. *)
Fixpoint quote_plus (s : string) : string :=
  match s with
  | EmptyString => EmptyString
  | String c t =>
      let n := nat_of_ascii c in
      let q :=
        if always_safe c then String c EmptyString
        else if Ascii.eqb c " " then "+"
        else String "%" (String (hex_digit (n / 16)) (String (hex_digit (n mod 16)) EmptyString)) in
      String.append q (quote_plus t)
  end.

(** [urllib.parse.urlencode(params)] for string values. *)
Definition urlencode (params : list (string * string)) : string :=
  String.concat "&"
    (map (fun kv => String.append (quote_plus (fst kv)) (String.append "=" (quote_plus (snd kv))))
         params).

(** [hmac.new(key, message, hashlib.sha256).digest()] and
    [base64.b64encode(...)], on byte strings; the [.encode('utf-8')] and
    [.decode('utf-8')] around them are the identity on these ASCII strings. *)
Class Crypto := {
  hmac_sha256_digest : string -> string -> string;
  b64encode : string -> string }.

(* ------------------------------------------------------------------ *)
(** ** The world the client runs in: clock, cache directory, network. *)

Record pagination := { NumberOfPages : option Z }.

(** A decoded response body [{'Items': [...], 'Pagination': {...}}]; the
    items are JSON objects of type [Item]. *)
Record page {Item : Type} := { Items : option (list Item); Pagination : option pagination }.
Arguments page : clear implicits.

Inductive http_result {Item : Type} :=
| NetworkError                                      (* requests.get raises *)
| HttpResponse (status : Z) (body : option (page Item)).  (* None: body is not JSON *)
Arguments http_result : clear implicits.

(** A pickled cache file: its modification time and its contents, [None]
    when [pickle.load] fails on it. *)
Record cache_file {Item : Type} := { mtime : Z; contents : option (list Item) }.
Arguments cache_file : clear implicits.

Inductive write_outcome := WriteOk | OpenFails | DumpFails.

Record world {Item : Type} := {
  clock : Z;                                                  (* datetime.now(), in seconds *)
  files : list (string * cache_file Item);                    (* the .cache directory *)
  disk : string -> write_outcome;                             (* what writing a file does *)
  respond : string -> list (string * string) -> http_result Item;  (* the vendor API *)
  sent : list (string * list (string * string)) }.            (* requests sent so far *)
Arguments world : clear implicits.

Inductive exn :=
| HTTPError (status : Z)      (* response.raise_for_status() *)
| ConnectionError             (* requests.get *)
| JSONDecodeError             (* response.json() *)
| NoTermination.              (* the model's fuel ran out: the loop had not stopped *)

Inductive outcome (A : Type) := Ok (a : A) | Raise (e : exn).
Arguments Ok {A} a.
Arguments Raise {A} e.

(** Python code with exceptions over the world: a raised exception keeps
    the effects made before it. *)
Definition M (Item A : Type) := world Item -> outcome A * world Item.

Definition ret {Item A} (a : A) : M Item A := fun w => (Ok a, w).
Definition bind {Item A B} (c : M Item A) (k : A -> M Item B) : M Item B :=
  fun w => match c w with
           | (Ok a, w') => k a w'
           | (Raise e, w') => (Raise e, w')
           end.
Notation "x <- c ;; k" := (bind c (fun x => k)) (at level 61, c at next level, right associativity).

Definition with_files {Item} (w : world Item) fs : world Item :=
  {| clock := clock w; files := fs; disk := disk w; respond := respond w; sent := sent w |}.
Definition with_sent {Item} (w : world Item) s : world Item :=
  {| clock := clock w; files := files w; disk := disk w; respond := respond w; sent := s |}.

(* ------------------------------------------------------------------ *)
(** ** Cache, signing, requests, pagination, fetch operations. *)

Section Client.
Context {Item : Type} `{Crypto}.

Definition get_cache_file (cache_key : string) : string :=
  String.append ".cache/" (String.append cache_key ".pkl").

(** [load_from_cache]: the [try]/[except: pass] turns a failing
    [pickle.load] into [None]. *)
Definition load_from_cache (cache_key : string) (max_age_hours : Z) : M Item (option (list Item)) :=
  fun w =>
    let cache_file := get_cache_file cache_key in
    match Dict.get cache_file (files w) with
    | None => (Ok None, w)
    | Some f =>
        if clock w - mtime f <? max_age_hours * 3600 then (Ok (contents f), w)
        else (Ok None, w)
    end.

(** [save_to_cache]: [open(..., 'wb')] truncates the file, so a failing
    [pickle.dump] leaves an unreadable file; every failure is swallowed. *)
Definition save_to_cache (cache_key : string) (data : list Item) : M Item unit :=
  fun w =>
    let cache_file := get_cache_file cache_key in
    match disk w cache_file with
    | WriteOk => (Ok tt, with_files w (Dict.set cache_file {| mtime := clock w; contents := Some data |} (files w)))
    | OpenFails => (Ok tt, w)
    | DumpFails => (Ok tt, with_files w (Dict.set cache_file {| mtime := clock w; contents := None |} (files w)))
    end.

Record UnleashedAPI := { api_id : string; api_key : string; base_url : string }.

Definition new_UnleashedAPI (id key : string) : UnleashedAPI :=
  {| api_id := id; api_key := key; base_url := "https://api.unleashedsoftware.com" |}.

(** [_generate_signature]. *)
Definition generate_signature (self : UnleashedAPI) (query_string : string) : string :=
  b64encode (hmac_sha256_digest (api_key self) query_string).

(** [_make_request]: the URL and headers it sends, then the response. *)
Definition make_request (self : UnleashedAPI) (endpoint : string)
    (params : list (string * string)) : M Item (page Item) :=
  fun w =>
    let query_string := match params with [] => "" | _ => urlencode params end in
    let signature := generate_signature self query_string in
    let headers := [("Accept", "application/json"); ("api-auth-id", api_id self);
                    ("api-auth-signature", signature)] in
    let full_url := String.append (base_url self) endpoint in
    let full_url := if String.eqb query_string "" then full_url
                    else String.append full_url (String.append "?" query_string) in
    let w := with_sent w (sent w ++ [(full_url, headers)]) in
    match respond w full_url headers with
    | NetworkError => (Raise ConnectionError, w)
    | HttpResponse status body =>
        if (400 <=? status) && (status <? 600) then (Raise (HTTPError status), w)
        else match body with
             | None => (Raise JSONDecodeError, w)
             | Some data => (Ok data, w)
             end
    end.

(** [data.get('Pagination', {}).get('NumberOfPages', 1)]. *)
Definition number_of_pages (data : page Item) : Z :=
  dget (match Pagination data with Some p => NumberOfPages p | None => None end) 1.

(** The [while True] loop of [get_all_pages]; [fuel] bounds the number of
    iterations the model runs. *)
Fixpoint get_all_pages_loop (fuel : nat) (self : UnleashedAPI) (endpoint : string)
    (params : list (string * string)) (page : Z) (all_items : list Item) : M Item (list Item) :=
  match fuel with
  | O => fun w => (Raise NoTermination, w)
  | S fuel =>
      let current_params := Dict.set "page" (str_Z page) params in
      data <- make_request self endpoint current_params ;;
      let items := dget (Items data) [] in
      match items with
      | [] => ret all_items
      | _ :: _ =>
          let all_items := all_items ++ items in
          if number_of_pages data <=? page then ret all_items
          else get_all_pages_loop fuel self endpoint params (page + 1) all_items
      end
  end.

Definition get_all_pages (fuel : nat) (self : UnleashedAPI) (endpoint : string)
    (params : list (string * string)) : M Item (list Item) :=
  get_all_pages_loop fuel self endpoint params 1 [].

Definition get_sales_orders (fuel : nat) (self : UnleashedAPI) (start_date end_date : string)
    : M Item (list Item) :=
  let cache_key := String.append "sales_orders_" (String.append start_date (String.append "_" end_date)) in
  cached_data <- load_from_cache cache_key 2 ;;
  match cached_data with
  | Some d => ret d
  | None =>
      let params := [("completedAfter", start_date); ("completedBefore", end_date);
                     ("orderStatus", "Completed")] in
      data <- get_all_pages fuel self "/SalesOrders" params ;;
      _ <- save_to_cache cache_key data ;;
      ret data
  end.

Definition get_products (fuel : nat) (self : UnleashedAPI) : M Item (list Item) :=
  let cache_key := "products_all" in
  cached_data <- load_from_cache cache_key 2 ;;
  match cached_data with
  | Some d => ret d
  | None =>
      data <- get_all_pages fuel self "/Products" [] ;;
      _ <- save_to_cache cache_key data ;;
      ret data
  end.

Definition get_salespersons (fuel : nat) (self : UnleashedAPI) : M Item (list Item) :=
  let cache_key := "salespersons_all" in
  cached_data <- load_from_cache cache_key 2 ;;
  match cached_data with
  | Some d => ret d
  | None =>
      data <- get_all_pages fuel self "/SalesPersons" [] ;;
      _ <- save_to_cache cache_key data ;;
      ret data
  end.

Definition get_credit_notes (fuel : nat) (self : UnleashedAPI) (start_date end_date : string)
    : M Item (list Item) :=
  let cache_key := String.append "credit_notes_" (String.append start_date (String.append "_" end_date)) in
  cached_data <- load_from_cache cache_key 2 ;;
  match cached_data with
  | Some d => ret d
  | None =>
      let params := [("startDate", start_date); ("endDate", end_date)] in
      data <- get_all_pages fuel self "/CreditNotes" params ;;
      _ <- save_to_cache cache_key data ;;
      ret data
  end.

(** [order.get('Customer', {}).get('CustomerCode')] of a fetched item. *)
Context (item_customer_code : Item -> option string).

Definition EXCLUDED_CUSTOMERS : list string := ["Virtugroup"; "Fengrong"].

Definition not_excluded (x : Item) : bool :=
  match item_customer_code x with
  | Some c => negb (existsb (String.eqb c) EXCLUDED_CUSTOMERS)
  | None => true
  end.

(** What the data-load step of [main] leaves for the rest of the render. *)
Inductive load_result :=
| LoadError (message : string)
| LoadReady (current_orders previous_orders products current_credit_notes previous_credit_notes : list Item).

(** The [try] block of [main] that fetches and filters the data, with its
    [except Exception] that shows the error and returns. *)
Definition load_data (fuel : nat) (api : UnleashedAPI)
    (current_start current_end previous_start previous_end : string) : M Item load_result :=
  fun w =>
    match (all_current_orders <- get_sales_orders fuel api current_start current_end ;;
           all_previous_orders <- get_sales_orders fuel api previous_start previous_end ;;
           products <- get_products fuel api ;;
           all_current_credit_notes <- get_credit_notes fuel api current_start current_end ;;
           all_previous_credit_notes <- get_credit_notes fuel api previous_start previous_end ;;
           ret (LoadReady (filter not_excluded all_current_orders)
                          (filter not_excluded all_previous_orders)
                          products
                          (filter not_excluded all_current_credit_notes)
                          (filter not_excluded all_previous_credit_notes))) w with
    | (Ok r, w') => (Ok r, w')
    | (Raise _, w') => (Ok (LoadError "Error fetching data"), w')
    end.

End Client.

(* ------------------------------------------------------------------ *)
(** ** What the client is specified to do *)

(** How [_make_request] ends on a response: [raise_for_status()], then [.json()]. *)
Definition response_outcome {Item} (res : http_result Item) : outcome (page Item) :=
  match res with
  | NetworkError => Raise ConnectionError
  | HttpResponse status body =>
      if (400 <=? status) && (status <? 600) then Raise (HTTPError status)
      else match body with None => Raise JSONDecodeError | Some data => Ok data end
  end.

(** A request that succeeds: a status that is not an error and a JSON body. *)
Definition request_ok {Item} (res : http_result Item) : bool :=
  match response_outcome res with Ok _ => true | Raise _ => false end.

(** The item list of a page, empty when missing. *)
Definition page_items {Item} (data : page Item) : list Item := dget (Items data) [].

(** The total page count a response reports: 1 when the pagination object
    or its page count is missing. *)
Definition reported_total {Item} (data : page Item) : Z :=
  match Pagination data with
  | Some {| NumberOfPages := Some n |} => n
  | _ => 1
  end.

Section PagesSpec.
Context {Item : Type} `{Crypto} (self : UnleashedAPI) (endpoint : string)
        (params : list (string * string)) (w : world Item).

(** The answer of the API to the request for page [p]. *)
Definition page_response (p : Z) : outcome (page Item) :=
  fst (make_request self endpoint (Dict.set "page" (str_Z p) params) w).

(** [pages_from p items n]: asking for pages [p], [p + 1], ... and stopping
    at the first empty page or at the first page [q] with [q >= total
    reported by q], the client collects [items] in page order with [n]
    requests. *)
Inductive pages_from : Z -> list Item -> nat -> Prop :=
| pages_stop_empty p data :
    page_response p = Ok data -> page_items data = [] -> pages_from p [] 1
| pages_stop_last p data :
    page_response p = Ok data -> page_items data <> [] -> reported_total data <= p ->
    pages_from p (page_items data) 1
| pages_next p data rest n :
    page_response p = Ok data -> page_items data <> [] -> p < reported_total data ->
    pages_from (p + 1) rest n -> pages_from p (page_items data ++ rest) (S n).

End PagesSpec.

(** The error contract of a fetch run from [w] that ended in [res]: the
    requests it sent come after those already sent; a request that failed is
    the last one sent and the fetch raised; a fetch that raised left the
    cache directory as it was. *)
Definition fetch_contract {Item A} (w : world Item) (res : outcome A * world Item) : Prop :=
  let '(r, w') := res in
  exists reqs : list (string * list (string * string)),
    sent w' = sent w ++ reqs /\
    (forall pre req post, reqs = pre ++ req :: post ->
       request_ok (respond w (fst req) (snd req)) = false ->
       post = [] /\ exists e, r = Raise e) /\
    (forall e, r = Raise e -> files w' = files w).

(* ------------------------------------------------------------------ *)
(** ** The [Refresh Data] button and the [Last updated] text of [main] *)

Fixpoint strip_prefix (p s : string) : option string :=
  match p, s with
  | EmptyString, _ => Some s
  | String a p', String b s' => if Ascii.eqb a b then strip_prefix p' s' else None
  | _, _ => None
  end.

(** Whether a file name matches the pattern [*.pkl]: [*] stands for any
    characters of one path component (no [/]). *)
Fixpoint star_pkl (s : string) : bool :=
  String.eqb s ".pkl" ||
  match s with
  | EmptyString => false
  | String c t => negb (Ascii.eqb c "/") && star_pkl t
  end.

(** [CACHE_DIR.glob("*.pkl")]: the [.pkl] files directly in [.cache]. *)
Definition in_cache_glob (path : string) : bool :=
  match strip_prefix ".cache/" path with
  | Some base => star_pkl base
  | None => false
  end.

(** The [Refresh Data] button:
<<
    for cache_file in CACHE_DIR.glob("*.pkl"):
        try: cache_file.unlink()
        except: pass
>>
    [unlink_ok path] says whether deleting [path] succeeds. *)
Definition refresh_cache {Item} (unlink_ok : string -> bool) (w : world Item) : world Item :=
  with_files w (filter (fun f => negb (in_cache_glob (fst f) && unlink_ok (fst f))) (files w)).

(** [int(time_since_fetch.total_seconds() / 60)]: [int] truncates toward 0
    (the seconds are taken as an exact rational). *)
Definition minutes_ago (seconds : Q) : Z :=
  Z.quot (Qnum seconds) (Zpos (Qden seconds) * 60).

(** [time_str] of the data status line. *)
Definition time_str (seconds : Q) : string :=
  let minutes_ago := minutes_ago seconds in
  if minutes_ago =? 0 then "just now"
  else if minutes_ago <? 60 then
    String.append (str_Z minutes_ago)
      (String.append " minute" (String.append (if negb (minutes_ago =? 1) then "s" else "") " ago"))
  else
    let hours_ago := minutes_ago / 60 in
    String.append (str_Z hours_ago)
      (String.append " hour" (String.append (if negb (hours_ago =? 1) then "s" else "") " ago")).

(* ================================================================== *)
(** * Properties *)

Open Scope Q_scope.

(** ** Dictionary facts *)

Section DictFacts.
Context {A : Type}.

Lemma get_set_same (k : string) (v : A) d : Dict.get k (Dict.set k v d) = Some v.
Proof.
  induction d as [|[k' v'] t IH]; simpl.
  - now rewrite String.eqb_refl.
  - destruct (String.eqb_spec k k') as [->|Hne]; simpl.
    + now rewrite String.eqb_refl.
    + apply String.eqb_neq in Hne. now rewrite Hne.
Qed.

Lemma get_set_other (k k' : string) (v : A) d :
  k' <> k -> Dict.get k' (Dict.set k v d) = Dict.get k' d.
Proof.
  intros Hne. induction d as [|[k0 v0] t IH]; simpl.
  - apply String.eqb_neq in Hne. now rewrite Hne.
  - destruct (String.eqb_spec k k0) as [->|Hk]; simpl.
    + apply String.eqb_neq in Hne. now rewrite Hne.
    + now rewrite IH.
Qed.

Lemma get_update_same (k : string) (g : A -> A) d :
  Dict.get k (Dict.update k g d) = option_map g (Dict.get k d).
Proof.
  induction d as [|[k' v'] t IH]; simpl; auto.
  destruct (String.eqb k k') eqn:E; simpl; rewrite E; auto.
Qed.

Lemma get_update_other (k k' : string) (g : A -> A) d :
  k' <> k -> Dict.get k' (Dict.update k g d) = Dict.get k' d.
Proof.
  intros Hne. induction d as [|[k0 v0] t IH]; simpl; auto.
  destruct (String.eqb_spec k k0) as [->|Hk]; simpl.
  - apply String.eqb_neq in Hne. now rewrite Hne.
  - now rewrite IH.
Qed.

Lemma keys_update (k : string) (g : A -> A) d :
  map fst (Dict.update k g d) = map fst d.
Proof.
  induction d as [|[k' v'] t IH]; simpl; auto.
  destruct (String.eqb k k'); simpl; now rewrite ?IH.
Qed.

Lemma get_None_keys (k : string) (d : list (string * A)) :
  Dict.get k d = None <-> ~ In k (map fst d).
Proof.
  induction d as [|[k' v'] t IH]; simpl.
  - tauto.
  - destruct (String.eqb_spec k k') as [->|Hne].
    + split; [discriminate | tauto].
    + rewrite IH. split; intros H1 H2; apply H1; [destruct H2; congruence | now right].
Qed.

Lemma keys_set_absent (k : string) (v : A) d :
  Dict.get k d = None -> map fst (Dict.set k v d) = map fst d ++ [k].
Proof.
  induction d as [|[k' v'] t IH]; simpl; auto.
  destruct (String.eqb k k') eqn:E; [discriminate|].
  intros H1. simpl. now rewrite IH.
Qed.

Section Totals.
Context (f : A -> Q).

Definition total (d : list (string * A)) : Q := Qsum (map (fun kv => f (snd kv)) d).

Lemma total_update (k : string) (g : A -> A) d :
  total (Dict.update k g d) ==
  total d + match Dict.get k d with Some r => f (g r) - f r | None => 0 end.
Proof.
  unfold total. induction d as [|[k' v'] t IH]; simpl.
  - ring.
  - destruct (String.eqb k k'); simpl; rewrite !Qsum_cons.
    + ring.
    + rewrite IH. ring.
Qed.

Lemma total_set_absent (k : string) (v : A) d :
  Dict.get k d = None -> total (Dict.set k v d) == total d + f v.
Proof.
  unfold total. induction d as [|[k' v'] t IH]; qsum_simpl; intros H1.
  - ring.
  - destruct (String.eqb k k'); [discriminate|]. simpl.
    rewrite Qsum_cons, (IH H1). ring.
Qed.

End Totals.
End DictFacts.

Lemma Qsum_app (l1 l2 : list Q) : Qsum (l1 ++ l2) == Qsum l1 + Qsum l2.
Proof.
  induction l1 as [|a t IH]; simpl.
  - rewrite Qsum_nil. ring.
  - rewrite !Qsum_cons, IH. ring.
Qed.

Lemma fold_left_concat {A B} (g : A -> B -> A) (ls : list (list B)) (a : A) :
  fold_left g (List.concat ls) a = fold_left (fun a l => fold_left g l a) ls a.
Proof.
  revert a. induction ls as [|l t IH]; intros a; simpl; auto.
  now rewrite fold_left_app, IH.
Qed.

(** ** The grouping loop partitions its input *)

(** [x] falls in the group of key [k]. *)
Definition key_is (k : string) (ko : option string) : bool :=
  match ko with Some k' => String.eqb k' k | None => false end.

Definition has_key (ko : option string) : bool :=
  match ko with Some _ => true | None => false end.

(** [G] groups [xs] by [key]: one entry per key, the keys are exactly the keys
    of the records, and the [f] field of each group is the sum of [amt] over
    the records of that key. *)
Definition partition_by {X R} (key : X -> option string) (amt : X -> Q) (f : R -> Q)
    (xs : list X) (G : list (string * R)) : Prop :=
  NoDup (map fst G) /\
  (forall k, In k (map fst G) <-> exists x, In x xs /\ key x = Some k) /\
  (forall k r, Dict.get k G = Some r -> f r == Qsum (map amt (filter (fun x => key_is k (key x)) xs))).

Section GroupingFacts.
Context {X R : Type} (key : X -> option string) (init : X -> R) (acc : X -> R -> R)
        (f : R -> Q) (amt : X -> Q).
Hypothesis f_init : forall x, f (init x) == 0.
Hypothesis f_acc : forall x r, f (acc x r) == f r + amt x.

Definition getf (k : string) (d : list (string * R)) : Q :=
  match Dict.get k d with Some r => f r | None => 0 end.

Lemma group_step_getf d x k :
  getf k (group_step key init acc d x) ==
  getf k d + (if key_is k (key x) then amt x else 0).
Proof.
  unfold group_step, getf, key_is. destruct (key x) as [k'|]; [|simpl; ring].
  destruct (String.eqb_spec k' k) as [<-|Hne].
  - rewrite get_update_same. unfold Dict.mem.
    destruct (Dict.get k' d) as [r|] eqn:E; simpl.
    + rewrite E. simpl. rewrite f_acc. ring.
    + rewrite get_set_same. simpl. rewrite f_acc, f_init. ring.
  - rewrite get_update_other by congruence.
    destruct (Dict.mem k' d); [ring|].
    rewrite get_set_other by congruence. ring.
Qed.

Lemma group_step_total d x :
  total f (group_step key init acc d x) ==
  total f d + (if has_key (key x) then amt x else 0).
Proof.
  unfold group_step, has_key. destruct (key x) as [k|]; [|ring].
  rewrite total_update. unfold Dict.mem.
  destruct (Dict.get k d) as [r|] eqn:E.
  - rewrite E, f_acc. ring.
  - rewrite get_set_same, total_set_absent by exact E.
    rewrite f_acc, f_init. ring.
Qed.

Lemma group_step_keys d x :
  map fst (group_step key init acc d x) =
  match key x with
  | Some k => if Dict.mem k d then map fst d else map fst d ++ [k]
  | None => map fst d
  end.
Proof.
  unfold group_step. destruct (key x) as [k|]; auto.
  rewrite keys_update. unfold Dict.mem.
  destruct (Dict.get k d) eqn:E; auto. now apply keys_set_absent.
Qed.

Lemma group_fold_getf xs : forall d k,
  getf k (fold_left (group_step key init acc) xs d) ==
  getf k d + Qsum (map amt (filter (fun x => key_is k (key x)) xs)).
Proof.
  induction xs as [|x t IH]; intros d k; simpl.
  - rewrite Qsum_nil. ring.
  - rewrite IH, group_step_getf.
    destruct (key_is k (key x)); qsum_simpl; ring.
Qed.

Lemma group_fold_total xs : forall d,
  total f (fold_left (group_step key init acc) xs d) ==
  total f d + Qsum (map amt (filter (fun x => has_key (key x)) xs)).
Proof.
  induction xs as [|x t IH]; intros d; simpl.
  - rewrite Qsum_nil. ring.
  - rewrite IH, group_step_total.
    destruct (has_key (key x)); qsum_simpl; ring.
Qed.

Lemma group_fold_keys xs : forall d,
  NoDup (map fst d) ->
  NoDup (map fst (fold_left (group_step key init acc) xs d)) /\
  (forall k, In k (map fst (fold_left (group_step key init acc) xs d)) <->
             In k (map fst d) \/ exists x, In x xs /\ key x = Some k).
Proof.
  induction xs as [|x t IH]; intros d Hd; simpl.
  - split; auto. intros k. split; [tauto|]. intros [H1|[x [[] _]]]; auto.
  - assert (Hstep : NoDup (map fst (group_step key init acc d x)) /\
                    forall k, In k (map fst (group_step key init acc d x)) <->
                              In k (map fst d) \/ key x = Some k).
    { rewrite group_step_keys. destruct (key x) as [k0|] eqn:Ek.
      - unfold Dict.mem. destruct (Dict.get k0 d) as [r|] eqn:E.
        + split; auto. intros k. split; [tauto|]. intros [H1|H1]; auto.
          injection H1 as <-.
          destruct (in_dec String.string_dec k0 (map fst d)) as [Hi|Hni]; auto.
          apply get_None_keys in Hni. congruence.
        + apply get_None_keys in E. split.
          * apply NoDup_app; auto using NoDup_cons, NoDup_nil.
            intros a Ha [<-|[]]. contradiction.
          * intros k. rewrite in_app_iff. simpl.
            split; intros [H1|H1]; auto.
            -- destruct H1 as [<-|[]]; auto.
            -- injection H1 as <-. auto.
      - split; auto. intros k. split; [tauto|]. intros [H1|H1]; [auto|discriminate]. }
    destruct Hstep as [Hnd Hin]. destruct (IH _ Hnd) as [Hnd' Hin'].
    split; auto. intros k. rewrite Hin', Hin. split.
    + intros [[H1|H1]|[y [Hy Hk]]]; eauto.
    + intros [H1|[y [[<-|Hy] Hk]]]; eauto.
Qed.

Lemma group_by_partition xs :
  partition_by key amt f xs (group_by key init acc xs) /\
  total f (group_by key init acc xs) == Qsum (map amt (filter (fun x => has_key (key x)) xs)).
Proof.
  unfold group_by, partition_by.
  destruct (group_fold_keys xs [] (NoDup_nil _)) as [Hnd Hin].
  split; [split; [exact Hnd| split]|].
  - intros k. rewrite Hin. simpl. tauto.
  - intros k r Hr. pose proof (group_fold_getf xs [] k) as Hg.
    unfold getf in Hg at 1. rewrite Hr in Hg. rewrite Hg. unfold getf. simpl. ring.
  - rewrite group_fold_total. simpl. unfold total. simpl. rewrite Qsum_nil. ring.
Qed.

End GroupingFacts.

Lemma filter_all {X} (p : X -> bool) xs : (forall x, p x = true) -> filter p xs = xs.
Proof. intros Hp. induction xs as [|x t IH]; simpl; auto. now rewrite Hp, IH. Qed.

Lemma fold_left_map' {A B C} (g : A -> B -> A) (h : C -> B) (l : list C) (a : A) :
  fold_left g (map h l) a = fold_left (fun a x => g a (h x)) l a.
Proof. revert a. induction l as [|x t IH]; intros a; simpl; auto. Qed.

Lemma get_product_revenue_flat orders :
  get_product_revenue orders =
  group_by (fun l => Some (line_code l))
           (fun l => {| name := line_name l; revenue := 0 |})
           (fun l r => {| name := name r; revenue := revenue r + line_total l |})
           (List.concat (map order_lines orders)).
Proof.
  unfold get_product_revenue, group_by. now rewrite fold_left_concat, fold_left_map'.
Qed.

(** ** Sample records *)

Definition order_A100 : order :=
  {| Customer := Some {| CustomerCode := Some "A"; CustomerName := Some "Alpha" |};
     SubTotal := Some 100; SalesOrderLines := None; SalesPerson := None |}.

(** ** C1: percentage change *)

(** C1 (code_bug). The comparison tables compute 100% when the previous
    value is 0 and the current one positive; the two summary cards of [main]
    ([sales_change_percent], [credit_change_percent]) compute 0% there. With
    one current order of subtotal 100 and no previous orders, the customer
    table reports +100% while the "Total Sales" card reports 0%. *)
Theorem C1_summary_percent_zero_previous :
  sales_change_percent [order_A100] [] == 0 /\
  ~ (sales_change_percent [order_A100] [] == 100) /\
  credit_change_percent [order_A100] [] == 0 /\
  option_map (map ChangePct) (get_top_customers_comparison [order_A100] [] 10) = Some [100].
Proof.
  split; [reflexivity|]. split; [vm_compute; discriminate|].
  split; reflexivity.
Qed.

(** ** C2: grouping *)

(** An order without a salesperson and without lines. *)
Definition order_no_salesperson : order :=
  {| Customer := None; SubTotal := Some 100; SalesOrderLines := None; SalesPerson := None |}.

(** C2 (counterexample). An order without a salesperson lands in no group
    of [get_salesperson_revenue], and an order whose subtotal is not the sum
    of its line totals makes the product groups sum to something other than
    [calculate_total_sales]. *)
Lemma C2_counterexample :
  salesperson_data [order_no_salesperson] = [] /\
  ~ (total sp_revenue (salesperson_data [order_no_salesperson])
     == calculate_total_sales [order_no_salesperson]) /\
  ~ (total revenue (get_product_revenue [order_no_salesperson])
     == calculate_total_sales [order_no_salesperson]).
Proof.
  split; [reflexivity|]. split; vm_compute; discriminate.
Qed.

(** C2 (amended). The customer grouping (shared by
    [get_top_customers_comparison] and [compare_customer_growth]) puts every
    order in exactly one group, by customer code; the product grouping puts
    every order line in exactly one group, by product code; the salesperson
    grouping skips the orders without a salesperson and puts every other
    order in exactly one group, by salesperson id. The revenue of a group is
    the sum, in input order, of the [SubTotal] ([LineTotal] for products) of
    the records in it, as its [+=] loop adds them. *)
Theorem C2_grouping_partitions (orders : list order) :
  partition_by (fun o => Some (customer_code o)) order_subtotal revenue
               orders (get_customer_revenue orders) /\
  partition_by (fun l => Some (line_code l)) line_total revenue
               (List.concat (map order_lines orders)) (get_product_revenue orders) /\
  partition_by sp_key order_subtotal sp_revenue orders (salesperson_data orders).
Proof.
  split; [|split].
  - exact (proj1 (group_by_partition (fun o => Some (customer_code o))
                (fun o => {| name := customer_name o; revenue := 0 |})
                (fun o r => {| name := name r; revenue := revenue r + order_subtotal o |})
                revenue order_subtotal ltac:(reflexivity) ltac:(reflexivity) orders)).
  - rewrite get_product_revenue_flat.
    exact (proj1 (group_by_partition (fun l => Some (line_code l))
                (fun l => {| name := line_name l; revenue := 0 |})
                (fun l r => {| name := name r; revenue := revenue r + line_total l |})
                revenue line_total ltac:(reflexivity) ltac:(reflexivity)
                (List.concat (map order_lines orders)))).
  - exact (proj1 (group_by_partition sp_key
                (fun o => {| sp_name := sp_fullname o; sp_revenue := 0; sp_orders := 0 |})
                (fun o r => {| sp_name := sp_name r; sp_revenue := sp_revenue r + order_subtotal o;
                               sp_orders := (sp_orders r + 1)%Z |})
                sp_revenue order_subtotal ltac:(reflexivity) ltac:(reflexivity) orders)).
Qed.

(** ** The cost fallback chain *)

(** The chain in the words of the spec: the first stage that is present and
    non-zero, else zero. *)
Fixpoint first_nonzero (stages : list (option Q)) : Q :=
  match stages with
  | [] => 0
  | Some q :: t => if Qeq_bool q 0 then first_nonzero t else q
  | None :: t => first_nonzero t
  end.

Definition cost_stages (pc : list (string * Q)) (l : order_line) : list (option Q) :=
  [UnitCost l; DefaultPurchasePrice (line_product l); AverageLandPrice (line_product l);
   Dict.get (line_code l) pc].

Definition spec_unit_cost (pc : list (string * Q)) (l : order_line) : Q :=
  first_nonzero (cost_stages pc l).

Lemma first_nonzero_cons o t : first_nonzero (o :: t) = py_or (dget o 0) (first_nonzero t).
Proof.
  unfold py_or, truthy. destruct o as [q|]; simpl; [|reflexivity].
  destruct (Qeq_bool q 0); reflexivity.
Qed.

Lemma py_or_assoc a b c : py_or (py_or a b) c = py_or a (py_or b c).
Proof. unfold py_or. destruct (truthy a) eqn:E; [now rewrite E|reflexivity]. Qed.

Lemma py_or_zero a : py_or a 0 == a.
Proof.
  unfold py_or, truthy. destruct (Qeq_bool a 0) eqn:E; simpl.
  - apply Qeq_bool_iff in E. now rewrite E.
  - reflexivity.
Qed.

Lemma py_or_compat a b c : b == c -> py_or a b == py_or a c.
Proof. intros Hbc. unfold py_or. destruct (truthy a); [reflexivity|exact Hbc]. Qed.

Lemma py_or_skip a b : Qeq_bool a 0 = true -> py_or a b = b.
Proof. unfold py_or, truthy. intros E. now rewrite E. Qed.

Lemma py_or_keep a b : Qeq_bool a 0 = false -> py_or a b = a.
Proof. unfold py_or, truthy. intros E. now rewrite E. Qed.

Lemma line_unit_cost_spec pc l : line_unit_cost pc l == spec_unit_cost pc l.
Proof.
  unfold line_unit_cost, spec_unit_cost, cost_stages. cbv zeta.
  rewrite !first_nonzero_cons. simpl first_nonzero.
  destruct (Qeq_bool (dget (UnitCost l) 0) 0) eqn:E.
  - rewrite (py_or_skip _ _ E), py_or_assoc.
    apply py_or_compat, py_or_compat. symmetry. apply py_or_zero.
  - rewrite (py_or_keep _ _ E). reflexivity.
Qed.

Lemma first_nonzero_zero stages :
  first_nonzero stages == 0 <-> (forall o q, In o stages -> o = Some q -> q == 0).
Proof.
  induction stages as [|o t IH]; simpl.
  - split; [intros _ o q []|reflexivity].
  - destruct o as [q0|].
    + destruct (Qeq_bool q0 0) eqn:E.
      * apply Qeq_bool_iff in E. rewrite IH. split.
        -- intros H1 o q [<-|Ho] Hq; [injection Hq as <-; exact E|eauto].
        -- intros H1 o q Ho Hq. eauto.
      * split.
        -- intros H1. apply Qeq_bool_iff in H1. congruence.
        -- intros H1. rewrite <- (Qeq_bool_iff q0 0). rewrite (proj2 (Qeq_bool_iff q0 0)) in E; [discriminate|eauto].
    + rewrite IH. split.
      * intros H1 o q [<-|Ho] Hq; [discriminate|eauto].
      * intros H1 o q Ho Hq. eauto.
Qed.

(** ** Sorting by a column *)

Section SortFacts.
Context {A : Type} (col : A -> Q).

Definition desc (a b : A) : Prop := col b <= col a.

Lemma HdRel_insert a x l : HdRel desc a l -> desc a x -> HdRel desc a (insert_desc col x l).
Proof.
  intros Hh Hx. destruct l as [|b t]; simpl.
  - now constructor.
  - destruct (Qle_bool (col x) (col b)); constructor; auto. now inversion Hh.
Qed.

Lemma insert_desc_sorted x l : Sorted desc l -> Sorted desc (insert_desc col x l).
Proof.
  induction l as [|a t IH]; simpl; intros Hs.
  - repeat constructor.
  - inversion Hs as [|? ? Ht Hh]; subst.
    destruct (Qle_bool (col x) (col a)) eqn:E.
    + constructor; [now apply IH|]. apply HdRel_insert; auto.
      unfold desc. now apply Qle_bool_iff.
    + constructor; [exact Hs|]. constructor. unfold desc.
      apply Qlt_le_weak, Qnot_le_lt. intros Hle. apply Qle_bool_iff in Hle. congruence.
Qed.

Lemma sort_desc_sorted rows : Sorted desc (sort_desc col rows).
Proof.
  unfold sort_desc. assert (H0 : Sorted desc (@nil A)) by constructor.
  revert H0. generalize (@nil A). induction rows as [|x t IH]; intros acc Hs; simpl; auto.
  apply IH, insert_desc_sorted, Hs.
Qed.

Lemma firstn_sorted n l : Sorted desc l -> Sorted desc (firstn n l).
Proof.
  revert n. induction l as [|a t IH]; intros n Hs.
  - destruct n; constructor.
  - destruct n as [|n]; simpl; [constructor|].
    inversion Hs as [|? ? Ht Hh]; subst.
    constructor; [now apply IH|].
    destruct t as [|b u]; destruct n; simpl; constructor. now inversion Hh.
Qed.

Lemma nlargest_sorted n rows out : nlargest col n rows = Some out -> Sorted desc out.
Proof.
  unfold nlargest. destruct rows; [discriminate|]. intros H1. injection H1 as <-.
  apply firstn_sorted, sort_desc_sorted.
Qed.

End SortFacts.

Lemma get_product_margin_flat pc orders :
  get_product_margin pc orders =
  group_by (fun l => Some (line_code l))
           (fun l => {| m_name := line_name l; m_margin := 0; m_revenue := 0 |})
           (fun l r => {| m_name := m_name r; m_margin := m_margin r + line_margin pc l;
                          m_revenue := m_revenue r + line_total l |})
           (List.concat (map order_lines orders)).
Proof.
  unfold get_product_margin, group_by. now rewrite fold_left_concat, fold_left_map'.
Qed.

Lemma margin_partition pc orders :
  partition_by (fun l => Some (line_code l)) (line_margin pc) m_margin
               (List.concat (map order_lines orders)) (get_product_margin pc orders).
Proof.
  rewrite get_product_margin_flat.
  exact (proj1 (group_by_partition (fun l => Some (line_code l))
                  (fun l => {| m_name := line_name l; m_margin := 0; m_revenue := 0 |})
                  (fun l r => {| m_name := m_name r; m_margin := m_margin r + line_margin pc l;
                                 m_revenue := m_revenue r + line_total l |})
                  m_margin (line_margin pc) ltac:(reflexivity) ltac:(reflexivity) _)).
Qed.

(** ** C6: margins *)

(** C6. With the catalog map [pc] built from the product list, every line's
    unit cost is the first present, non-zero value of: the line's [UnitCost],
    its product's [DefaultPurchasePrice], its product's [AverageLandPrice], the
    catalog cost of its product code; else 0. Its margin is
    [line total - quantity * unit cost]; the margins are summed per product
    code in each period; and the rows returned are in decreasing order of
    current margin. *)
Theorem C6_margin_fallback_chain (current_orders previous_orders : list order)
    (products_list : list product) (limit : nat) (pc : list (string * Q))
    (Hpc : product_costs products_list = Some pc) :
  (forall l, line_unit_cost pc l == spec_unit_cost pc l) /\
  (forall l, line_margin pc l == line_total l - line_quantity l * spec_unit_cost pc l) /\
  partition_by (fun l => Some (line_code l)) (line_margin pc) m_margin
               (List.concat (map order_lines current_orders))
               (get_product_margin pc current_orders) /\
  partition_by (fun l => Some (line_code l)) (line_margin pc) m_margin
               (List.concat (map order_lines previous_orders))
               (get_product_margin pc previous_orders) /\
  (forall rows,
     get_top_products_by_margin_comparison current_orders previous_orders products_list limit
     = Some rows -> Sorted (desc CurrentMargin) rows).
Proof.
  split; [exact (line_unit_cost_spec pc)|].
  split; [intros l; unfold line_margin; now rewrite line_unit_cost_spec|].
  split; [apply margin_partition|]. split; [apply margin_partition|].
  intros rows. unfold get_top_products_by_margin_comparison. rewrite Hpc.
  apply nlargest_sorted.
Qed.

Definition line_free : order_line :=
  {| Product := Some {| ProductCode := Some "P1"; ProductDescription := Some "Widget";
                        DefaultPurchasePrice := Some 5; AverageLandPrice := Some 4 |};
     LineTotal := Some 30; OrderQuantity := Some 2; UnitCost := Some 0 |}.

Definition order_with_line : order :=
  {| Customer := None; SubTotal := Some 30; SalesOrderLines := Some [line_free]; SalesPerson := None |}.

Lemma C6_witness :
  product_costs [] = Some [] /\
  ((forall l, line_unit_cost [] l == spec_unit_cost [] l) /\
   (forall l, line_margin [] l == line_total l - line_quantity l * spec_unit_cost [] l) /\
   partition_by (fun l => Some (line_code l)) (line_margin []) m_margin
                (List.concat (map order_lines [order_with_line]))
                (get_product_margin [] [order_with_line]) /\
   partition_by (fun l => Some (line_code l)) (line_margin []) m_margin
                (List.concat (map order_lines []))
                (get_product_margin [] []) /\
   (forall rows,
      get_top_products_by_margin_comparison [order_with_line] [] [] 10 = Some rows ->
      Sorted (desc CurrentMargin) rows)).
Proof.
  split; [reflexivity|].
  exact (C6_margin_fallback_chain [order_with_line] [] [] 10 [] eq_refl).
Defined.

(** ** C10: a zero cost is no cost *)

Definition without_unit_cost (l : order_line) : order_line :=
  {| Product := Product l; LineTotal := LineTotal l; OrderQuantity := OrderQuantity l;
     UnitCost := None |}.

(** C10. The unit cost of a line is the value of the first stage of the
    chain [UnitCost], [DefaultPurchasePrice], [AverageLandPrice], catalog
    cost that is present and non-zero: a stage that is absent or 0 passes
    control to the next one ([first_nonzero]). In particular a line whose
    [UnitCost] is 0 is costed exactly as a line without [UnitCost]: through
    the fallbacks, at its product's non-zero [DefaultPurchasePrice] when
    there is one; and the unit cost is 0 exactly when every stage of the
    chain is absent or 0. *)
Theorem C10_zero_unit_cost_falls_back (pc : list (string * Q)) (l : order_line) :
  line_unit_cost pc l == first_nonzero (cost_stages pc l) /\
  (forall q, UnitCost l = Some q -> q == 0 ->
     line_unit_cost pc l = line_unit_cost pc (without_unit_cost l)) /\
  (forall q p, UnitCost l = Some q -> q == 0 ->
     DefaultPurchasePrice (line_product l) = Some p -> ~ p == 0 ->
     line_unit_cost pc l = p) /\
  (line_unit_cost pc l == 0 <->
   forall o q, In o (cost_stages pc l) -> o = Some q -> q == 0).
Proof.
  split; [exact (line_unit_cost_spec pc l)|]. split; [|split].
  - intros q Hq Hz. unfold line_unit_cost. rewrite Hq. simpl dget.
    apply Qeq_bool_iff in Hz. rewrite Hz. reflexivity.
  - intros q p Hq Hz Hp Hnz. unfold line_unit_cost. rewrite Hq. simpl dget.
    apply Qeq_bool_iff in Hz. rewrite Hz, Hp. simpl dget.
    assert (E : Qeq_bool p 0 = false).
    { destruct (Qeq_bool p 0) eqn:E; auto. apply Qeq_bool_iff in E. contradiction. }
    rewrite (py_or_keep p _ E). exact (py_or_keep p _ E).
  - rewrite line_unit_cost_spec. apply first_nonzero_zero.
Qed.

Lemma C10_witness :
  line_unit_cost [] line_free == first_nonzero (cost_stages [] line_free) /\
  (forall q, UnitCost line_free = Some q -> q == 0 ->
     line_unit_cost [] line_free = line_unit_cost [] (without_unit_cost line_free)) /\
  (forall q p, UnitCost line_free = Some q -> q == 0 ->
     DefaultPurchasePrice (line_product line_free) = Some p -> ~ p == 0 ->
     line_unit_cost [] line_free = p) /\
  (line_unit_cost [] line_free == 0 <->
   forall o q, In o (cost_stages [] line_free) -> o = Some q -> q == 0).
Proof. exact (C10_zero_unit_cost_falls_back [] line_free). Defined.

(** ** Calendar facts *)

Local Open Scope Z_scope.

Arguments days_in_month : simpl never.

Lemma days_in_month_bounds y m : 28 <= days_in_month y m <= 31.
Proof.
  unfold days_in_month.
  destruct (m =? 2); [destruct (is_leap y)|destruct ((m =? 4) || (m =? 6) || (m =? 9) || (m =? 11))]; lia.
Qed.

Lemma datetime_new_valid y m d :
  1 <= y <= 9999 -> 1 <= m <= 12 -> 1 <= d <= days_in_month y m ->
  datetime_new y m d = Some (mkdate y m d).
Proof.
  intros Hy Hm Hd. unfold datetime_new, valid_dateb. simpl.
  replace ((1 <=? y) && (y <=? 9999) && (1 <=? m) && (m <=? 12) && (1 <=? d)
           && (d <=? days_in_month y m)) with true; [reflexivity|].
  symmetry. repeat rewrite andb_true_iff. repeat rewrite Z.leb_le. lia.
Qed.

Lemma datetime_new_invalid y m d :
  1 <= y <= 9999 -> 1 <= m <= 12 -> days_in_month y m < d ->
  datetime_new y m d = None.
Proof.
  intros Hy Hm Hd. unfold datetime_new, valid_dateb. simpl.
  replace (d <=? days_in_month y m) with false by (symmetry; apply Z.leb_gt; lia).
  now rewrite andb_false_r.
Qed.

(** The month preceding month [m] of year [y]. *)
Definition preceding_month (y m : Z) : Z * Z :=
  if m =? 1 then (y - 1, 12) else (y, m - 1).

(** ** C4: monthly periods *)

(** C4. For a current date [today] (of year 2 or later: [datetime.now()]
    never returns year 1, where [today.replace(day=1) - timedelta(days=1)]
    would overflow), the monthly branch returns without error: the current
    period runs from the 1st of the month to [today]; the previous period
    starts on the 1st of the preceding month and ends on the same day of
    that month, clamped to its last day. *)
Theorem C4_monthly_previous_period (today : date)
    (Hv : valid_date today) (Hy : 2 <= year today) :
  let '(py, pm) := preceding_month (year today) (month today) in
  monthly_periods today =
  Some (mkdate (year today) (month today) 1, today,
        mkdate py pm 1, mkdate py pm (Z.min (day today) (days_in_month py pm))).
Proof.
  destruct today as [y m d]. unfold valid_date in Hv. simpl in *.
  pose proof (days_in_month_bounds y m) as Bm.
  unfold monthly_periods, replace_day, preceding_month. simpl.
  rewrite (datetime_new_valid y m 1) by lia. simpl.
  unfold sub_one_day. simpl.
  replace (1 <? 1) with false by reflexivity.
  destruct (Z.eqb_spec m 1) as [->|Hm1].
  - replace (1 <? 1) with false by reflexivity.
    replace (1 <? y) with true by (symmetry; apply Z.ltb_lt; lia). simpl.
    pose proof (days_in_month_bounds (y - 1) 12) as B12.
    assert (E12 : days_in_month (y - 1) 12 = 31) by reflexivity.
    rewrite (datetime_new_valid (y - 1) 12 1) by lia.
    destruct (Z.le_gt_cases d 31).
    + rewrite (datetime_new_valid (y - 1) 12 d) by lia.
      rewrite E12, Z.min_l by lia. reflexivity.
    + rewrite (datetime_new_invalid (y - 1) 12 d) by lia.
      rewrite E12, Z.min_r by lia. reflexivity.
  - replace (1 <? m) with true by (symmetry; apply Z.ltb_lt; lia). simpl.
    pose proof (days_in_month_bounds y (m - 1)) as Bp.
    rewrite (datetime_new_valid y (m - 1) 1) by lia.
    destruct (Z.le_gt_cases d (days_in_month y (m - 1))).
    + rewrite (datetime_new_valid y (m - 1) d) by lia.
      rewrite Z.min_l by lia. reflexivity.
    + rewrite (datetime_new_invalid y (m - 1) d) by lia.
      rewrite Z.min_r by lia. reflexivity.
Qed.

Lemma C4_witness :
  valid_date (mkdate 2024 3 31) /\ 2 <= year (mkdate 2024 3 31) /\
  monthly_periods (mkdate 2024 3 31) =
  Some (mkdate 2024 3 1, mkdate 2024 3 31, mkdate 2024 2 1,
        mkdate 2024 2 (Z.min 31 (days_in_month 2024 2))).
Proof.
  assert (Hv : valid_date (mkdate 2024 3 31)) by (vm_compute; repeat split; discriminate).
  assert (Hy : 2 <= year (mkdate 2024 3 31)) by (simpl; lia).
  split; [exact Hv|]. split; [exact Hy|].
  exact (C4_monthly_previous_period (mkdate 2024 3 31) Hv Hy).
Defined.

Lemma div_step y k : 0 < k -> y / k = (y - 1) / k + (if y mod k =? 0 then 1 else 0).
Proof.
  intros Hk.
  pose proof (Z.div_mod (y - 1) k ltac:(lia)) as Hd.
  pose proof (Z.mod_pos_bound (y - 1) k Hk) as Hr.
  set (q := (y - 1) / k) in *. set (r := (y - 1) mod k) in *.
  destruct (Z.eq_dec r (k - 1)) as [Er|Er].
  - assert (Ey : y = k * (q + 1)) by lia.
    rewrite Ey, Z.mul_comm, Z.div_mul, Z.mod_mul by lia. simpl. lia.
  - assert (Ey : y = (r + 1) + q * k) by lia.
    rewrite Ey, Z.div_add, Z.mod_add by lia.
    rewrite (Z.div_small (r + 1) k) by lia.
    rewrite (Z.mod_small (r + 1) k) by lia.
    replace (r + 1 =? 0) with false by (symmetry; apply Z.eqb_neq; lia). lia.
Qed.

Lemma mod_zero_divides y a b : 0 < a -> 0 < b -> y mod (a * b) = 0 -> y mod a = 0.
Proof.
  intros Ha Hb H0. apply Z.mod_divide; [lia|].
  apply Z.mod_divide in H0; [|lia]. destruct H0 as [c Hc]. exists (c * b). lia.
Qed.

Lemma days_before_year_succ y :
  days_before_year (y + 1) = days_before_year y + 365 + (if is_leap y then 1 else 0).
Proof.
  unfold days_before_year, is_leap. replace (y + 1 - 1) with y by lia.
  rewrite (div_step y 4), (div_step y 100), (div_step y 400) by lia.
  destruct (Z.eqb_spec (y mod 400) 0) as [E400|N400].
  - assert (E100 : y mod 100 = 0) by (apply (mod_zero_divides y 100 4); [lia|lia|exact E400]).
    assert (E4 : y mod 4 = 0) by (apply (mod_zero_divides y 4 25); [lia|lia|exact E100]).
    rewrite E100, E4. simpl. lia.
  - destruct (Z.eqb_spec (y mod 100) 0) as [E100|N100].
    + assert (E4 : y mod 4 = 0) by (apply (mod_zero_divides y 4 25); [lia|lia|exact E100]).
      rewrite E4. simpl. lia.
    + destruct (Z.eqb_spec (y mod 4) 0); simpl; lia.
Qed.

Lemma month_cases m : 1 <= m <= 12 ->
  m = 1 \/ m = 2 \/ m = 3 \/ m = 4 \/ m = 5 \/ m = 6 \/
  m = 7 \/ m = 8 \/ m = 9 \/ m = 10 \/ m = 11 \/ m = 12.
Proof. lia. Qed.

Lemma days_before_month_succ y m : 1 <= m <= 11 ->
  days_before_month y (m + 1) = days_before_month y m + days_in_month y m.
Proof.
  intros Hm. unfold days_before_month, days_in_month.
  destruct (month_cases m ltac:(lia)) as [->|[->|[->|[->|[->|[->|[->|[->|[->|[->|[->| ->]]]]]]]]]]];
    try lia; simpl; destruct (is_leap y); reflexivity.
Qed.

Lemma days_in_year y m : 1 <= m <= 12 ->
  days_before_month y m + days_in_month y m <= 365 + (if is_leap y then 1 else 0).
Proof.
  intros Hm. unfold days_before_month, days_in_month.
  destruct (month_cases m Hm) as [->|[->|[->|[->|[->|[->|[->|[->|[->|[->|[->| ->]]]]]]]]]]];
    simpl; destruct (is_leap y); simpl; lia.
Qed.

Lemma days_before_month_1 y : days_before_month y 1 = 0.
Proof. reflexivity. Qed.

Lemma days_before_month_12 y :
  days_before_month y 12 + days_in_month y 12 = 365 + (if is_leap y then 1 else 0).
Proof. unfold days_before_month, days_in_month. simpl. destruct (is_leap y); reflexivity. Qed.

Lemma next_day_valid d d' :
  valid_date d -> next_day d = Some d' -> valid_date d' /\ toordinal d' = toordinal d + 1.
Proof.
  destruct d as [y m dd]. unfold valid_date, next_day, toordinal. simpl. intros Hv Hn.
  destruct (Z.ltb_spec dd (days_in_month y m)).
  - injection Hn as <-. simpl. split; [lia|]. lia.
  - destruct (Z.ltb_spec m 12).
    + injection Hn as <-. simpl.
      pose proof (days_in_month_bounds y (m + 1)).
      split; [lia|]. rewrite days_before_month_succ by lia. lia.
    + destruct (Z.ltb_spec y 9999); [|discriminate].
      injection Hn as <-. simpl.
      pose proof (days_in_month_bounds (y + 1) 1).
      split; [lia|].
      assert (m = 12) by lia. subst m.
      rewrite days_before_year_succ, days_before_month_1.
      pose proof (days_before_month_12 y). lia.
Qed.

Lemma add_days_valid n : forall d d',
  valid_date d -> add_days d n = Some d' ->
  valid_date d' /\ toordinal d' = toordinal d + Z.of_nat n.
Proof.
  induction n as [|n IH]; intros d d' Hv Ha; simpl in Ha.
  - injection Ha as <-. split; [exact Hv|lia].
  - destruct (next_day d) as [d1|] eqn:En; [|discriminate].
    destruct (next_day_valid d d1 Hv En) as [Hv1 Ho1].
    destruct (IH d1 d' Hv1 Ha) as [Hv' Ho']. split; [exact Hv'|lia].
Qed.

Definition max_date : date := mkdate 9999 12 31.

Lemma next_day_none d : valid_date d -> next_day d = None -> d = max_date.
Proof.
  destruct d as [y m dd]. unfold valid_date, next_day, max_date, mkdate. simpl. intros Hv Hn.
  destruct (Z.ltb_spec dd (days_in_month y m)); [discriminate|].
  destruct (Z.ltb_spec m 12); [discriminate|].
  destruct (Z.ltb_spec y 9999); [discriminate|].
  assert (m = 12) by lia. subst m.
  assert (days_in_month y 12 = 31) as E by reflexivity.
  f_equal; lia.
Qed.

Lemma add_days_some n : forall d,
  valid_date d -> toordinal d + Z.of_nat n <= toordinal max_date ->
  exists d', add_days d n = Some d'.
Proof.
  induction n as [|n IH]; intros d Hv Hle; simpl.
  - now exists d.
  - destruct (next_day d) as [d1|] eqn:En.
    + destruct (next_day_valid d d1 Hv En) as [Hv1 Ho1].
      apply IH; [exact Hv1|lia].
    + apply next_day_none in En; [|exact Hv]. subst d. lia.
Qed.

Lemma days_before_year_mono n : forall y,
  days_before_year y <= days_before_year (y + Z.of_nat n).
Proof.
  induction n as [|n IH]; intros y.
  - replace (y + Z.of_nat 0) with y by lia. lia.
  - replace (y + Z.of_nat (S n)) with ((y + Z.of_nat n) + 1) by lia.
    rewrite days_before_year_succ. specialize (IH y). destruct (is_leap _); lia.
Qed.

Lemma toordinal_le_max d : valid_date d -> toordinal d <= toordinal max_date.
Proof.
  destruct d as [y m dd]. unfold valid_date, toordinal. simpl. intros Hv.
  pose proof (days_in_year y m ltac:(lia)) as Hy.
  pose proof (days_before_year_succ y) as Hs.
  pose proof (days_before_year_mono (Z.to_nat (9999 - y)) (y + 1)) as Hm.
  replace (y + 1 + Z.of_nat (Z.to_nat (9999 - y))) with (9999 + 1) in Hm by lia.
  assert (E : days_before_year (9999 + 1) = days_before_year 9999 + 365)
    by (rewrite days_before_year_succ; reflexivity).
  assert (E2 : days_before_month 9999 12 = 334) by reflexivity.
  assert (E3 : days_before_year 9999 + 365 = 3652059) by reflexivity.
  unfold max_date, mkdate. simpl year. simpl month. simpl day. try rewrite E2.
  destruct (is_leap y); lia.
Qed.

Lemma days_before_month_mono y n : forall a,
  1 <= a -> a + Z.of_nat n <= 12 -> days_before_month y a <= days_before_month y (a + Z.of_nat n).
Proof.
  induction n as [|n IH]; intros a Ha Hn.
  - replace (a + Z.of_nat 0) with a by lia. lia.
  - replace (a + Z.of_nat (S n)) with ((a + 1) + Z.of_nat n) by lia.
    specialize (IH (a + 1) ltac:(lia) ltac:(lia)).
    rewrite days_before_month_succ in IH by lia.
    pose proof (days_in_month_bounds y a). lia.
Qed.

Lemma days_before_month_le y a b :
  1 <= a <= b -> b <= 12 -> days_before_month y a <= days_before_month y b.
Proof.
  intros Hab Hb. replace b with (a + Z.of_nat (Z.to_nat (b - a))) by lia.
  apply days_before_month_mono; lia.
Qed.

(** The first day of the quarter preceding the quarter that starts in month [qm]. *)
Definition preceding_quarter_start (y qm : Z) : date :=
  if qm =? 1 then mkdate (y - 1) 10 1 else mkdate y (qm - 3) 1.

(** ** C5: quarterly periods *)

(** C5. For a current date [today] of year 2 or later, the quarterly branch
    returns without error: the current period starts on the first day of
    the quarter of [today] (month [qm] = 1, 4, 7 or 10); the previous period
    starts on the first day of the preceding quarter (October 1 of the year
    before when [qm] = 1) and ends on a valid date exactly as many days after
    that start as [today] is after the start of its quarter. *)
Theorem C5_quarterly_previous_period (today : date)
    (Hv : valid_date today) (Hy : 2 <= year today) :
  exists qm previous_end,
    In qm [1; 4; 7; 10] /\ qm <= month today < qm + 3 /\
    quarterly_periods today =
      Some (mkdate (year today) qm 1, today,
            preceding_quarter_start (year today) qm, previous_end) /\
    valid_date previous_end /\
    toordinal previous_end - toordinal (preceding_quarter_start (year today) qm)
    = toordinal today - toordinal (mkdate (year today) qm 1).
Proof.
  destruct today as [y m d]. unfold valid_date in Hv. simpl in Hv, Hy |- *.
  pose proof (Z.div_mod (m - 1) 3 ltac:(lia)) as Hdm.
  pose proof (Z.mod_pos_bound (m - 1) 3 ltac:(lia)) as Hmb.
  unfold quarterly_periods. cbn [year month day].
  set (q := (m - 1) / 3) in *. set (r := (m - 1) mod 3) in *.
  assert (Hq : 0 <= q <= 3) by lia.
  exists (q * 3 + 1).
  rewrite (datetime_new_valid y (q * 3 + 1) 1)
    by (pose proof (days_in_month_bounds y (q * 3 + 1)); lia).
  pose proof (days_before_month_le y (q * 3 + 1) m ltac:(lia) ltac:(lia)) as Hle.
  change {| year := y; month := m; day := d |} with (mkdate y m d).
  set (k := toordinal (mkdate y m d) - toordinal (mkdate y (q * 3 + 1) 1)).
  assert (Hk : 0 <= k) by (unfold k, toordinal; simpl; lia).
  assert (Hmax := toordinal_le_max (mkdate y m d) ltac:(unfold valid_date; simpl; lia)).
  assert (Hps : valid_date (preceding_quarter_start y (q * 3 + 1)) /\
                toordinal (preceding_quarter_start y (q * 3 + 1))
                <= toordinal (mkdate y (q * 3 + 1) 1) /\
                datetime_new (if q =? 0 then y - 1 else y)
                             ((if q =? 0 then 3 else q - 1) * 3 + 1) 1
                = Some (preceding_quarter_start y (q * 3 + 1))).
  { unfold preceding_quarter_start.
    destruct (Z.eqb_spec q 0) as [Eq|Nq].
    - rewrite Eq. simpl.
      pose proof (days_in_month_bounds (y - 1) 10).
      split; [unfold valid_date; simpl; lia|].
      split; [|apply datetime_new_valid; lia].
      unfold toordinal. simpl.
      pose proof (days_before_year_succ (y - 1)) as Hs.
      replace (y - 1 + 1) with y in Hs by lia.
      assert (E10 : days_before_month (y - 1) 10 = 273 + (if is_leap (y - 1) then 1 else 0))
        by (unfold days_before_month; simpl; destruct (is_leap (y - 1)); reflexivity).
      rewrite days_before_month_1. destruct (is_leap (y - 1)); lia.
    - replace (q * 3 + 1 =? 1) with false by (symmetry; apply Z.eqb_neq; lia).
      pose proof (days_in_month_bounds y (q * 3 + 1 - 3)).
      split; [unfold valid_date; simpl; lia|].
      split.
      + unfold toordinal. simpl.
        pose proof (days_before_month_le y (q * 3 + 1 - 3) (q * 3 + 1) ltac:(lia) ltac:(lia)). lia.
      + replace ((q - 1) * 3 + 1) with (q * 3 + 1 - 3) by lia.
        apply datetime_new_valid; lia. }
  destruct Hps as [Hpv [Hpo Hpn]].
  destruct (q =? 0); rewrite Hpn;
  (destruct (add_days_some (Z.to_nat k) _ Hpv) as [pe Hpe];
     [rewrite Z2Nat.id by exact Hk; unfold k in *; lia|]);
  rewrite Hpe; destruct (add_days_valid _ _ _ Hpv Hpe) as [Hv' Ho'];
  rewrite Z2Nat.id in Ho' by exact Hk;
  exists pe; (split; [simpl; lia|]); (split; [lia|]);
  (split; [reflexivity|]); (split; [exact Hv'|]); unfold k in Ho'; lia.
Qed.

Lemma C5_witness :
  valid_date (mkdate 2024 1 15) /\ 2 <= year (mkdate 2024 1 15) /\
  exists qm previous_end,
    In qm [1; 4; 7; 10] /\ qm <= month (mkdate 2024 1 15) < qm + 3 /\
    quarterly_periods (mkdate 2024 1 15) =
      Some (mkdate 2024 qm 1, mkdate 2024 1 15,
            preceding_quarter_start 2024 qm, previous_end) /\
    valid_date previous_end /\
    toordinal previous_end - toordinal (preceding_quarter_start 2024 qm)
    = toordinal (mkdate 2024 1 15) - toordinal (mkdate 2024 qm 1).
Proof.
  assert (Hv : valid_date (mkdate 2024 1 15)) by (vm_compute; repeat split; discriminate).
  assert (Hy : 2 <= year (mkdate 2024 1 15)) by (simpl; lia).
  split; [exact Hv|]. split; [exact Hy|].
  exact (C5_quarterly_previous_period (mkdate 2024 1 15) Hv Hy).
Defined.

(* ------------------------------------------------------------------ *)
(** ** The client: requests, pagination, errors, cache *)

Section ClientFacts.
Context {Item : Type} `{Crypto}.
Local Open Scope Z_scope.

Lemma query_string_eq (params : list (string * string)) :
  match params with [] => "" | _ => urlencode params end = urlencode params.
Proof. destruct params; reflexivity. Qed.

(** [_make_request] sends one request, then ends as its response says. *)
Lemma make_request_eq self endpoint params (w : world Item) :
  make_request self endpoint params w =
    let qs := urlencode params in
    let full_url := if String.eqb qs "" then String.append (base_url self) endpoint
                    else String.append (String.append (base_url self) endpoint)
                                       (String.append "?" qs) in
    let headers := [("Accept", "application/json"); ("api-auth-id", api_id self);
                    ("api-auth-signature", generate_signature self qs)] in
    (response_outcome (respond w full_url headers),
     with_sent w (sent w ++ [(full_url, headers)])).
Proof.
  unfold make_request. rewrite query_string_eq. cbv zeta.
  unfold with_sent at 1. cbn [respond].
  destruct (respond w _ _) as [|st [b|]]; simpl; try reflexivity;
    destruct ((400 <=? st) && (st <? 600)); reflexivity.
Qed.

Lemma make_request_req self endpoint params (w : world Item) :
  exists req, make_request self endpoint params w =
    (response_outcome (respond w (fst req) (snd req)), with_sent w (sent w ++ [req])).
Proof.
  rewrite make_request_eq. cbv zeta.
  exists (if String.eqb (urlencode params) "" then String.append (base_url self) endpoint
          else String.append (String.append (base_url self) endpoint)
                             (String.append "?" (urlencode params)),
          [("Accept", "application/json"); ("api-auth-id", api_id self);
           ("api-auth-signature", generate_signature self (urlencode params))]).
  reflexivity.
Qed.

Lemma make_request_fst self endpoint params (w w0 : world Item) :
  respond w0 = respond w ->
  fst (make_request self endpoint params w0) = fst (make_request self endpoint params w).
Proof. intro Hr. rewrite !make_request_eq. cbv zeta. simpl. now rewrite Hr. Qed.

Lemma with_sent_twice (w : world Item) s s' : with_sent (with_sent w s) s' = with_sent w s'.
Proof. reflexivity. Qed.

Lemma app_single_inv {A} (pre post : list A) x y : pre ++ x :: post = [y] -> pre = [] /\ x = y /\ post = [].
Proof.
  destruct pre as [|a pre]; simpl; intro E; inversion E; subst; [auto|].
  destruct pre; discriminate.
Qed.

Lemma number_of_pages_eq (data : page Item) : number_of_pages data = reported_total data.
Proof.
  unfold number_of_pages, reported_total.
  destruct (Pagination data) as [[[n|]]|]; reflexivity.
Qed.

(** The loop only sends requests; a failing request is the last one it
    sends, and the loop raises. *)
Lemma loop_shape fuel self endpoint params : forall page acc (w : world Item) r w',
  get_all_pages_loop fuel self endpoint params page acc w = (r, w') ->
  w' = with_sent w (sent w') /\
  exists reqs, sent w' = sent w ++ reqs /\
    (forall pre req post, reqs = pre ++ req :: post ->
       request_ok (respond w (fst req) (snd req)) = false ->
       post = [] /\ exists e, r = Raise e).
Proof.
  induction fuel as [|fuel IH]; intros page acc w r w' E; simpl in E.
  - inversion E; subst. split; [destruct w'; reflexivity|].
    exists []. split; [now rewrite app_nil_r|].
    intros pre req post Hp. destruct pre; discriminate.
  - unfold bind in E. destruct (make_request_req self endpoint (Dict.set "page" (str_Z page) params) w)
      as [req Hreq].
    rewrite Hreq in E.
    destruct (response_outcome (respond w (fst req) (snd req))) as [data|e] eqn:Eo.
    + assert (Hok : request_ok (respond w (fst req) (snd req)) = true)
        by (unfold request_ok; now rewrite Eo).
      assert (Hlast : forall reqs', (forall pre x post, reqs' = pre ++ x :: post ->
                 request_ok (respond w (fst x) (snd x)) = false -> post = [] /\ exists e, r = Raise e) ->
                 forall pre x post, req :: reqs' = pre ++ x :: post ->
                 request_ok (respond w (fst x) (snd x)) = false -> post = [] /\ exists e, r = Raise e).
      { intros reqs' Hr' pre x post Hp Hf. destruct pre as [|y pre]; simpl in Hp; inversion Hp; subst.
        - congruence.
        - eapply Hr'; eauto. }
      destruct (dget (Items data) []) as [|i is].
      * unfold ret in E. inversion E; subst. split; [reflexivity|].
        exists [req]. split; [reflexivity|]. apply (Hlast []).
        intros pre x post Hp. destruct pre; discriminate.
      * destruct (number_of_pages data <=? page).
        -- unfold ret in E. inversion E; subst. split; [reflexivity|].
           exists [req]. split; [reflexivity|]. apply (Hlast []).
           intros pre x post Hp. destruct pre; discriminate.
        -- destruct (IH _ _ _ _ _ E) as [Hw [reqs [Hs Hf]]].
           split; [rewrite Hw; apply with_sent_twice|].
           exists (req :: reqs). split; [rewrite Hs; simpl; now rewrite <- app_assoc|].
           apply Hlast. exact Hf.
    + inversion E; subst. split; [reflexivity|].
      exists [req]. split; [reflexivity|].
      intros pre x post Hp _. symmetry in Hp. apply app_single_inv in Hp as [_ [_ ->]]. eauto.
Qed.

(** C7: every request the client sends carries the header [api-auth-id]
    holding the API id and the header [api-auth-signature] holding the
    Base64 HMAC-SHA256, keyed by the API key, of exactly the URL-encoded
    query string of the request (the empty string when the request has no
    parameters); that query string follows [?] in the URL sent. *)
Theorem C7_request_signature self endpoint params (w : world Item) :
  exists headers,
    snd (make_request self endpoint params w) =
      with_sent w (sent w ++
        [(if String.eqb (urlencode params) "" then String.append (base_url self) endpoint
          else String.append (String.append (base_url self) endpoint)
                             (String.append "?" (urlencode params)),
          headers)]) /\
    Dict.get "api-auth-id" headers = Some (api_id self) /\
    Dict.get "api-auth-signature" headers =
      Some (b64encode (hmac_sha256_digest (api_key self) (urlencode params))) /\
    (params = [] ->
     Dict.get "api-auth-signature" headers = Some (b64encode (hmac_sha256_digest (api_key self) ""))).
Proof.
  rewrite make_request_eq. cbv zeta.
  eexists. split; [reflexivity|].
  split; [reflexivity|]. split; [reflexivity|].
  intros ->. reflexivity.
Qed.

Lemma page_response_step self endpoint params (w w0 : world Item) p :
  respond w0 = respond w ->
  fst (make_request self endpoint (Dict.set "page" (str_Z p) params) w0) =
  page_response self endpoint params w p.
Proof. intro Hr. unfold page_response. now apply make_request_fst. Qed.

Lemma loop_sound self endpoint params (w : world Item) fuel : forall p acc w0 r w',
  respond w0 = respond w ->
  get_all_pages_loop fuel self endpoint params p acc w0 = (Ok r, w') ->
  exists items n, r = acc ++ items /\ pages_from self endpoint params w p items n /\
                  List.length (sent w') = (List.length (sent w0) + n)%nat.
Proof.
  induction fuel as [|fuel IH]; intros p acc w0 r w' Hr E; simpl in E; [discriminate|].
  unfold bind in E.
  destruct (make_request_req self endpoint (Dict.set "page" (str_Z p) params) w0) as [req Hreq].
  pose proof (page_response_step self endpoint params w w0 p Hr) as Hp.
  rewrite Hreq in E, Hp. simpl in Hp.
  destruct (response_outcome (respond w0 (fst req) (snd req))) as [data|e]; [|discriminate].
  assert (Hlen : List.length (sent (with_sent w0 (sent w0 ++ [req]))) = (List.length (sent w0) + 1)%nat)
    by (simpl; now rewrite length_app).
  destruct (dget (Items data) []) as [|i is] eqn:Ei.
  - unfold ret in E. inversion E; subst.
    exists [], 1%nat. split; [now rewrite app_nil_r|]. split; [|exact Hlen].
    apply (pages_stop_empty _ _ _ _ _ data); [congruence|exact Ei].
  - rewrite number_of_pages_eq in E.
    destruct (Z.leb_spec (reported_total data) p) as [Hle|Hgt].
    + unfold ret in E. inversion E; subst.
      exists (i :: is), 1%nat. split; [reflexivity|]. split; [|exact Hlen].
      unfold page_items. rewrite <- Ei.
      apply pages_stop_last; unfold page_items; [congruence|rewrite Ei; discriminate|exact Hle].
    + destruct (IH _ _ (with_sent w0 (sent w0 ++ [req])) _ _ Hr E) as [items [n [Er [Hpf Hl]]]].
      exists ((i :: is) ++ items), (S n). split; [rewrite Er; symmetry; apply app_assoc|].
      split; [|rewrite Hl, Hlen; lia].
      replace (i :: is) with (page_items data) by (unfold page_items; exact Ei).
      apply pages_next; unfold page_items; [congruence|rewrite Ei; discriminate|exact Hgt|exact Hpf].
Qed.

Lemma loop_complete self endpoint params (w : world Item) p items n :
  pages_from self endpoint params w p items n ->
  forall acc w0, respond w0 = respond w ->
  exists w', get_all_pages_loop n self endpoint params p acc w0 = (Ok (acc ++ items), w').
Proof.
  induction 1 as [p data Hd Hi|p data Hd Hi Ht|p data rest n Hd Hi Ht Hpf IH];
    intros acc w0 Hr; simpl; unfold bind;
    destruct (make_request_req self endpoint (Dict.set "page" (str_Z p) params) w0) as [req Hreq];
    pose proof (page_response_step self endpoint params w w0 p Hr) as Hp;
    rewrite Hreq in Hp |- *; simpl in Hp; rewrite Hp, Hd; unfold page_items in Hi |- *.
  - rewrite Hi. unfold ret. rewrite app_nil_r. eauto.
  - destruct (dget (Items data) []) as [|i is]; [congruence|].
    rewrite number_of_pages_eq. replace (reported_total data <=? p) with true
      by (symmetry; apply Z.leb_le; exact Ht).
    unfold ret. eauto.
  - destruct (dget (Items data) []) as [|i is] eqn:Ei; [congruence|].
    rewrite number_of_pages_eq. replace (reported_total data <=? p) with false
      by (symmetry; apply Z.leb_gt; exact Ht).
    destruct (IH (acc ++ i :: is) (with_sent w0 (sent w0 ++ [req])) Hr) as [w' Hw'].
    exists w'. rewrite Hw', app_assoc. reflexivity.
Qed.

Lemma pages_bounded self endpoint params (w : world Item) N :
  (forall p, 1 <= p -> exists data,
     page_response self endpoint params w p = Ok data /\ reported_total data <= N) ->
  forall m p, 1 <= p -> (Z.to_nat (N - p) < m)%nat ->
  exists items n, pages_from self endpoint params w p items n /\
                  (n <= Z.to_nat (N - p) + 1)%nat.
Proof.
  intros Hall m. induction m as [|m IH]; intros p Hp Hm; [lia|].
  destruct (Hall p Hp) as [data [Hd HN]].
  destruct (page_items data) as [|i is] eqn:Ei.
  - exists [], 1%nat. split; [eapply pages_stop_empty; eauto|lia].
  - destruct (Z_le_gt_dec (reported_total data) p) as [Hle|Hgt].
    + exists (page_items data), 1%nat.
      split; [apply (pages_stop_last _ _ _ _ _ data); auto; congruence|lia].
    + destruct (IH (p + 1) ltac:(lia) ltac:(lia)) as [rest [n [Hpf Hn]]].
      exists (page_items data ++ rest), (S n).
      split; [apply pages_next; auto; [congruence|lia]|lia].
Qed.

(** C3: [get_all_pages] asks for pages 1, 2, ... one request per page and
    stops at the first page whose item list is empty (adding nothing) or,
    after adding its items, at the first page [p] with [p >=] the page count
    that page reports (1 when the pagination object or its page count is
    missing); its result is the concatenation of the non-empty item lists
    in page order. Every result is of this form, every such run is carried
    out by the loop, and when all pages answer and report at most [N] pages
    the loop stops within [max N 1] requests. *)
Theorem C3_get_all_pages self endpoint params (w : world Item) :
  (forall fuel r w', get_all_pages fuel self endpoint params w = (Ok r, w') ->
     exists n, pages_from self endpoint params w 1 r n /\
               List.length (sent w') = (List.length (sent w) + n)%nat) /\
  (forall r n, pages_from self endpoint params w 1 r n ->
     exists w', get_all_pages n self endpoint params w = (Ok r, w')) /\
  (forall N, (forall p, 1 <= p -> exists data,
                page_response self endpoint params w p = Ok data /\ reported_total data <= N) ->
     exists r n, pages_from self endpoint params w 1 r n /\ (n <= Z.to_nat N + 1)%nat).
Proof.
  split; [|split].
  - intros fuel r w' E.
    destruct (loop_sound self endpoint params w fuel 1 [] w r w' eq_refl E)
      as [items [n [-> [Hpf Hl]]]].
    exists n. simpl. auto.
  - intros r n Hpf.
    exact (loop_complete self endpoint params w 1 r n Hpf [] w eq_refl).
  - intros N Hall.
    destruct (pages_bounded self endpoint params w N Hall (S (Z.to_nat (N - 1))) 1
                ltac:(lia) ltac:(lia)) as [r [n [Hpf Hn]]].
    exists r, n. split; [exact Hpf|lia].
Qed.

Lemma load_from_cache_pure key max_age_hours (w : world Item) :
  exists v, load_from_cache key max_age_hours w = (Ok v, w).
Proof.
  unfold load_from_cache. cbv zeta.
  destruct (Dict.get (get_cache_file key) (files w)) as [f|]; [|eauto].
  destruct (clock w - mtime f <? max_age_hours * 3600); eauto.
Qed.

Lemma save_to_cache_files key data (w : world Item) :
  exists fs, save_to_cache key data w = (Ok tt, with_files w fs).
Proof.
  unfold save_to_cache. cbv zeta.
  destruct (disk w (get_cache_file key)); eauto.
  exists (files w). destruct w; reflexivity.
Qed.

(** The shape shared by the four fetch operations. *)
Lemma cached_fetch_contract key endpoint params fuel self (w : world Item) :
  fetch_contract w
    ((cached_data <- load_from_cache key 2 ;;
      match cached_data with
      | Some d => ret d
      | None =>
          data <- get_all_pages fuel self endpoint params ;;
          _ <- save_to_cache key data ;;
          ret data
      end) w).
Proof.
  unfold bind at 1. destruct (load_from_cache_pure key 2 w) as [v Hv]. rewrite Hv.
  destruct v as [d|].
  - exists []. split; [now rewrite app_nil_r|]. split.
    + intros pre req post Hp. destruct pre; discriminate.
    + discriminate.
  - unfold bind. unfold get_all_pages.
    destruct (get_all_pages_loop fuel self endpoint params 1 [] w) as [r1 w1] eqn:E.
    destruct (loop_shape fuel self endpoint params 1 [] w r1 w1 E) as [Hw [reqs [Hs Hf]]].
    destruct r1 as [data|e].
    + destruct (save_to_cache_files key data w1) as [fs Hfs]. rewrite Hfs. unfold ret.
      exists reqs. split; [exact Hs|]. split; [|discriminate].
      intros pre req post Hp Hreq. destruct (Hf pre req post Hp Hreq) as [_ [e He]]. discriminate.
    + exists reqs. split; [exact Hs|]. split; [exact Hf|].
      intros e' _. rewrite Hw. reflexivity.
Qed.

(** C8: when a page request of a fetch operation (sales orders, products,
    salespersons, credit notes) fails (a network error, an HTTP error
    status, a body that is not JSON), it is the last request the operation
    sends (no retry, no further page) and the operation raises, returning no
    list; an operation that raises leaves the cache directory unchanged; and
    the data-load step of [main] never raises, and yields data only when all
    five fetches returned their lists, so that one failure yields its error
    message and no data. *)
Theorem C8_fetch_errors_abort fuel self (w : world Item) :
  (forall start_date end_date,
     fetch_contract w (get_sales_orders fuel self start_date end_date w)) /\
  fetch_contract w (get_products fuel self w) /\
  fetch_contract w (get_salespersons fuel self w) /\
  (forall start_date end_date,
     fetch_contract w (get_credit_notes fuel self start_date end_date w)) /\
  (forall code cs ce ps pe, exists r w',
     load_data code fuel self cs ce ps pe w = (Ok r, w') /\
     forall a b c d e, r = LoadReady a b c d e ->
       exists l1 w1 l2 w2 l3 w3 l4 w4 l5,
         get_sales_orders fuel self cs ce w = (Ok l1, w1) /\
         get_sales_orders fuel self ps pe w1 = (Ok l2, w2) /\
         get_products fuel self w2 = (Ok l3, w3) /\
         get_credit_notes fuel self cs ce w3 = (Ok l4, w4) /\
         get_credit_notes fuel self ps pe w4 = (Ok l5, w') /\
         a = filter (not_excluded code) l1 /\ b = filter (not_excluded code) l2 /\
         c = l3 /\ d = filter (not_excluded code) l4 /\ e = filter (not_excluded code) l5).
Proof.
  split; [|split; [|split; [|split]]].
  - intros. unfold get_sales_orders. cbv zeta. apply cached_fetch_contract.
  - unfold get_products. cbv zeta. apply cached_fetch_contract.
  - unfold get_salespersons. cbv zeta. apply cached_fetch_contract.
  - intros. unfold get_credit_notes. cbv zeta. apply cached_fetch_contract.
  - intros code cs ce ps pe. unfold load_data, bind.
    destruct (get_sales_orders fuel self cs ce w) as [[l1|e1] w1] eqn:E1;
    [destruct (get_sales_orders fuel self ps pe w1) as [[l2|e2] w2] eqn:E2;
     [destruct (get_products fuel self w2) as [[l3|e3] w3] eqn:E3;
      [destruct (get_credit_notes fuel self cs ce w3) as [[l4|e4] w4] eqn:E4;
       [destruct (get_credit_notes fuel self ps pe w4) as [[l5|e5] w5] eqn:E5|]|]|]|];
    unfold ret; do 2 eexists; (split; [reflexivity|]);
    intros a b c d e Hr; try discriminate.
    injection Hr as Ha Hb Hc Hd He.
    exists l1, w1, l2, w2, l3, w3, l4, w4, l5. repeat split; congruence.
Qed.

(** C9: [load_from_cache] never raises and changes nothing; it returns
    stored data exactly when the cache file of the key exists, was written
    less than 2 hours ago and reads back; [save_to_cache] never raises, and
    when the file can be written it holds the data with the current time;
    on a miss each fetch operation runs the live fetch and then saves its
    result under its key. *)
Theorem C9_cache_miss_falls_through (key : string) (w : world Item) :
  (exists v, load_from_cache key 2 w = (Ok v, w)) /\
  (forall data, fst (load_from_cache key 2 w) = Ok (Some data) <->
     exists f, Dict.get (get_cache_file key) (files w) = Some f /\
               clock w - mtime f < 2 * 3600 /\ contents f = Some data) /\
  (forall data, fst (save_to_cache key data w) = Ok tt /\
     (disk w (get_cache_file key) = WriteOk ->
      Dict.get (get_cache_file key) (files (snd (save_to_cache key data w))) =
        Some {| mtime := clock w; contents := Some data |})) /\
  (forall fuel self start_date end_date,
     let k := String.append "sales_orders_" (String.append start_date (String.append "_" end_date)) in
     fst (load_from_cache k 2 w) = Ok None ->
     get_sales_orders fuel self start_date end_date w =
       (data <- get_all_pages fuel self "/SalesOrders"
                  [("completedAfter", start_date); ("completedBefore", end_date);
                   ("orderStatus", "Completed")] ;;
        _ <- save_to_cache k data ;; ret data) w) /\
  (forall fuel self, fst (load_from_cache "products_all" 2 w) = Ok None ->
     get_products fuel self w =
       (data <- get_all_pages fuel self "/Products" [] ;;
        _ <- save_to_cache "products_all" data ;; ret data) w) /\
  (forall fuel self, fst (load_from_cache "salespersons_all" 2 w) = Ok None ->
     get_salespersons fuel self w =
       (data <- get_all_pages fuel self "/SalesPersons" [] ;;
        _ <- save_to_cache "salespersons_all" data ;; ret data) w) /\
  (forall fuel self start_date end_date,
     let k := String.append "credit_notes_" (String.append start_date (String.append "_" end_date)) in
     fst (load_from_cache k 2 w) = Ok None ->
     get_credit_notes fuel self start_date end_date w =
       (data <- get_all_pages fuel self "/CreditNotes"
                  [("startDate", start_date); ("endDate", end_date)] ;;
        _ <- save_to_cache k data ;; ret data) w).
Proof.
  assert (Hmiss : forall k (rest : M Item (list Item)),
            fst (load_from_cache k 2 w) = Ok None ->
            (cached_data <- load_from_cache k 2 ;;
             match cached_data with Some d => ret d | None => rest end) w = rest w).
  { intros k rest Hm. unfold bind at 1.
    destruct (load_from_cache_pure k 2 w) as [v Hv]. rewrite Hv in *. simpl in Hm.
    now inversion Hm. }
  split; [|split; [|split; [|split; [|split; [|split]]]]].
  - apply load_from_cache_pure.
  - intro data. unfold load_from_cache. cbv zeta.
    destruct (Dict.get (get_cache_file key) (files w)) as [f|].
    + destruct (Z.ltb_spec (clock w - mtime f) (2 * 3600)) as [Hlt|Hge]; simpl.
      * split; [intro E; inversion E; eauto|].
        intros [f' [Ef [_ Ec]]]. inversion Ef; subst. now rewrite Ec.
      * split; [discriminate|]. intros [f' [Ef [Hlt _]]]. inversion Ef; subst. lia.
    + simpl. split; [discriminate|]. intros [f' [Ef _]]. discriminate.
  - intro data. destruct (save_to_cache_files key data w) as [fs Hfs].
    rewrite Hfs. split; [reflexivity|].
    intro Hd. unfold save_to_cache in Hfs. cbv zeta in Hfs. rewrite Hd in Hfs.
    unfold with_files in Hfs. inversion Hfs; subst. simpl. apply get_set_same.
  - intros fuel self s e k Hm. exact (Hmiss k _ Hm).
  - intros fuel self Hm. exact (Hmiss _ _ Hm).
  - intros fuel self Hm. exact (Hmiss _ _ Hm).
  - intros fuel self s e k Hm. exact (Hmiss k _ Hm).
Qed.

End ClientFacts.

(** A two-page endpoint, to run the client on. *)
#[local] Instance demo_crypto : Crypto :=
  {| hmac_sha256_digest := fun key msg => String.append key msg; b64encode := fun s => s |}.

Definition demo_api : UnleashedAPI := new_UnleashedAPI "id" "key".

Definition demo_page (items : list nat) : page nat :=
  {| Items := Some items; Pagination := Some {| NumberOfPages := Some 2%Z |} |}.

Definition demo_world : world nat :=
  {| clock := 0; files := []; disk := fun _ => WriteOk; sent := [];
     respond := fun url _ =>
       if String.eqb url "https://api.unleashedsoftware.com/X?page=1" then
         HttpResponse 200 (Some (demo_page [1; 2]%nat))
       else if String.eqb url "https://api.unleashedsoftware.com/X?page=2" then
         HttpResponse 200 (Some (demo_page [3]%nat))
       else HttpResponse 404 None |}.

Lemma C3_witness :
  exists w', get_all_pages 2 demo_api "/X" [] demo_world = (Ok [1; 2; 3]%nat, w').
Proof.
  apply (proj1 (proj2 (C3_get_all_pages demo_api "/X" [] demo_world))).
  change [1; 2; 3]%nat with (page_items (demo_page [1; 2]%nat) ++ page_items (demo_page [3]%nat)).
  apply pages_next.
  - vm_compute. reflexivity.
  - discriminate.
  - vm_compute. reflexivity.
  - apply pages_stop_last.
    + vm_compute. reflexivity.
    + discriminate.
    + vm_compute. discriminate.
Defined.

(* ================================================================== *)
(** * Further properties of app.py *)

Open Scope Q_scope.

(** ** Group names: the first record of a key names its group *)

Section GroupNames.
Context {X R B : Type} (key : X -> option string) (init : X -> R) (acc : X -> R -> R)
        (proj : R -> B).
Hypothesis proj_acc : forall x r, proj (acc x r) = proj r.

Lemma group_step_proj d x k :
  option_map proj (Dict.get k (group_step key init acc d x)) =
  match option_map proj (Dict.get k d) with
  | Some b => Some b
  | None => if key_is k (key x) then Some (proj (init x)) else None
  end.
Proof.
  unfold group_step, key_is.
  destruct (key x) as [k'|]; [|destruct (option_map proj (Dict.get k d)); reflexivity].
  destruct (String.eqb k' k) eqn:Ek.
  - apply String.eqb_eq in Ek. subst k'.
    rewrite get_update_same. unfold Dict.mem.
    destruct (Dict.get k d) as [r|] eqn:E; simpl.
    + rewrite E. simpl. now rewrite proj_acc.
    + rewrite get_set_same. simpl. now rewrite proj_acc.
  - apply String.eqb_neq in Ek.
    rewrite get_update_other by congruence.
    destruct (Dict.mem k' d); [destruct (option_map proj (Dict.get k d)); reflexivity|].
    rewrite get_set_other by congruence.
    destruct (option_map proj (Dict.get k d)); reflexivity.
Qed.

Lemma group_fold_proj xs : forall d k,
  option_map proj (Dict.get k (fold_left (group_step key init acc) xs d)) =
  match option_map proj (Dict.get k d) with
  | Some b => Some b
  | None => option_map (fun x => proj (init x)) (find (fun x => key_is k (key x)) xs)
  end.
Proof.
  induction xs as [|x t IH]; intros d k; simpl.
  - destruct (option_map proj (Dict.get k d)); reflexivity.
  - rewrite IH, group_step_proj.
    destruct (option_map proj (Dict.get k d)); [reflexivity|].
    destruct (key_is k (key x)); reflexivity.
Qed.

Lemma group_by_proj xs k :
  option_map proj (Dict.get k (group_by key init acc xs)) =
  option_map (fun x => proj (init x)) (find (fun x => key_is k (key x)) xs).
Proof. unfold group_by. now rewrite group_fold_proj. Qed.

End GroupNames.

(** The name shown for a customer, a product or a salesperson is the one of
    the first order (or order line) of its code: later records with the same
    code and another name do not rename the group; a code without records
    has no group. *)
Theorem group_name_is_first_record (orders : list order) (k : string) :
  option_map name (Dict.get k (get_customer_revenue orders)) =
    option_map customer_name (find (fun o => String.eqb (customer_code o) k) orders) /\
  option_map name (Dict.get k (get_product_revenue orders)) =
    option_map line_name
      (find (fun l => String.eqb (line_code l) k) (List.concat (map order_lines orders))) /\
  option_map sp_name (Dict.get k (salesperson_data orders)) =
    option_map sp_fullname (find (fun o => key_is k (sp_key o)) orders).
Proof.
  split; [|split].
  - unfold get_customer_revenue. rewrite group_by_proj by reflexivity. reflexivity.
  - rewrite get_product_revenue_flat, group_by_proj by reflexivity. reflexivity.
  - unfold salesperson_data. rewrite group_by_proj by reflexivity. reflexivity.
Qed.

(** ** Salesperson order counts *)

Lemma Qsum_ones {A} (l : list A) : Qsum (map (fun _ => 1) l) == inject_Z (Z.of_nat (List.length l)).
Proof.
  induction l as [|a t IH]; simpl; [reflexivity|].
  rewrite Qsum_cons, IH, Zpos_P_of_succ_nat, <- Z.add_1_r, inject_Z_plus. simpl. ring.
Qed.

Lemma inject_Z_succ (n : Z) : inject_Z (n + 1) == inject_Z n + 1.
Proof. now rewrite inject_Z_plus. Qed.

(** The [orders] column of [get_salesperson_revenue] counts, for each
    salesperson id, the orders carrying that id. *)
Theorem salesperson_order_count (orders : list order) (k : string) (r : sp_row) :
  Dict.get k (salesperson_data orders) = Some r ->
  sp_orders r = Z.of_nat (List.length (filter (fun o => key_is k (sp_key o)) orders)).
Proof.
  intros Hr.
  pose proof (group_fold_getf sp_key
                (fun o => {| sp_name := sp_fullname o; sp_revenue := 0; sp_orders := 0 |})
                (fun o r => {| sp_name := sp_name r; sp_revenue := sp_revenue r + order_subtotal o;
                               sp_orders := sp_orders r + 1 |})
                (fun r => inject_Z (sp_orders r)) (fun _ => 1)
                (fun _ => Qeq_refl _)
                (fun _ r => inject_Z_succ (sp_orders r))
                orders [] k) as Hg.
  unfold getf in Hg. fold (group_by sp_key
                (fun o => {| sp_name := sp_fullname o; sp_revenue := 0; sp_orders := 0 |})
                (fun o r => {| sp_name := sp_name r; sp_revenue := sp_revenue r + order_subtotal o;
                               sp_orders := sp_orders r + 1 |}) orders) in Hg.
  fold (salesperson_data orders) in Hg. rewrite Hr in Hg. simpl in Hg.
  rewrite Qsum_ones in Hg. apply inject_Z_injective. rewrite Hg. ring.
Qed.

Definition order_by_sam : order :=
  {| Customer := None; SubTotal := Some 50; SalesOrderLines := None;
     SalesPerson := Some {| Guid := Some "g1"; FullName := Some "Sam" |} |}.

Lemma salesperson_order_count_witness :
  exists r, Dict.get "g1" (salesperson_data [order_by_sam; order_A100; order_by_sam]) = Some r /\
            sp_orders r = 2%Z.
Proof.
  destruct (Dict.get "g1" (salesperson_data [order_by_sam; order_A100; order_by_sam]))
    as [r|] eqn:E; [|discriminate].
  exists r. split; [reflexivity|].
  rewrite (salesperson_order_count _ _ _ E). reflexivity.
Defined.

(** ** The purchase-price table of [get_top_products_by_margin_comparison] *)

Definition price_of (p : product) : Q := dget (DefaultPurchasePrice p) 0.

Lemma find_app {A} (f : A -> bool) l1 l2 :
  find f (l1 ++ l2) = match find f l1 with Some x => Some x | None => find f l2 end.
Proof. induction l1 as [|a t IH]; simpl; auto. destruct (f a); auto. Qed.

Lemma product_costs_fold_None ps :
  fold_left (fun acc p =>
       match acc, ProductCode p with
       | Some d, Some c => Some (Dict.set c (price_of p) d)
       | _, _ => None
       end) ps None = None.
Proof. induction ps as [|p t IH]; simpl; auto. Qed.

Lemma product_costs_fold ps : forall d,
  match fold_left (fun acc p =>
       match acc, ProductCode p with
       | Some d, Some c => Some (Dict.set c (price_of p) d)
       | _, _ => None
       end) ps (Some d) with
  | None => exists p, In p ps /\ ProductCode p = None
  | Some pc => (forall p, In p ps -> ProductCode p <> None) /\
      forall c, Dict.get c pc =
        match find (fun p => key_is c (ProductCode p)) (rev ps) with
        | Some p => Some (price_of p)
        | None => Dict.get c d
        end
  end.
Proof.
  induction ps as [|x t IH]; intros d; simpl.
  - split; [tauto|reflexivity].
  - destruct (ProductCode x) as [c'|] eqn:Ec.
    + specialize (IH (Dict.set c' (price_of x) d)).
      destruct (fold_left _ t _) as [pc|].
      * destruct IH as [Hall IH]. split.
        -- intros p [<-|Hp]; [congruence|auto].
        -- intros c. rewrite IH, find_app.
           destruct (find _ (rev t)); [reflexivity|].
           simpl. rewrite Ec. unfold key_is.
           destruct (String.eqb_spec c' c) as [<-|Hne].
           ++ apply get_set_same.
           ++ apply get_set_other; congruence.
      * destruct IH as [p [Hp Hn]]. eauto.
    + rewrite product_costs_fold_None. eauto.
Qed.

(** [product_costs] raises [KeyError] exactly when some product has no
    [ProductCode]; otherwise the price of a code is the
    [DefaultPurchasePrice] (0 when missing) of the LAST product with that
    code, and a code of no product is absent. *)
Theorem product_costs_last_wins (ps : list product) :
  (product_costs ps = None <-> exists p, In p ps /\ ProductCode p = None) /\
  (forall pc c, product_costs ps = Some pc ->
     Dict.get c pc = option_map price_of (find (fun p => key_is c (ProductCode p)) (rev ps))).
Proof.
  pose proof (product_costs_fold ps []) as H. unfold product_costs.
  fold price_of.
  destruct (fold_left _ ps (Some [])) as [pc|].
  - destruct H as [Hall Hget]. split.
    + split; [discriminate|]. intros [p [Hp Hn]]. destruct (Hall p Hp Hn).
    + intros pc' c E. injection E as <-. rewrite Hget.
      destruct (find _ (rev ps)); reflexivity.
  - split; [tauto|discriminate].
Qed.

(** ** The percentage column of the comparison tables *)

Lemma Qltb_iff a b : Qltb a b = true <-> a < b.
Proof.
  unfold Qltb. rewrite negb_true_iff. split; intro H1.
  - apply Qnot_le_lt. intro H2. apply Qle_bool_iff in H2. congruence.
  - destruct (Qle_bool b a) eqn:E; auto. apply Qle_bool_iff in E.
    exfalso. apply (Qlt_not_le _ _ H1 E).
Qed.

(** With a positive previous value the sign of [Change %] is the sign of
    the change, and it is at least -100 when the current value is not
    negative; with a previous value that is 0 or negative it is 100 for a
    positive current value and 0 otherwise, whatever the change. *)
Theorem change_pct_sign (c p : Q) :
  (0 < p ->
   (0 < change_pct c p <-> p < c) /\ (change_pct c p == 0 <-> c == p) /\
   (change_pct c p < 0 <-> c < p) /\ (0 <= c -> -100 <= change_pct c p)) /\
  (p <= 0 -> change_pct c p = if Qltb 0 c then 100 else 0).
Proof.
  unfold change_pct. split.
  - intros Hp. assert (E : Qltb 0 p = true) by now apply Qltb_iff.
    rewrite E.
    assert (Hq : (c - p) / p * 100 * p == (c - p) * 100)
      by (field; intro H0; rewrite H0 in Hp; discriminate).
    set (q := (c - p) / p * 100) in *.
    split; [|split; [|split]].
    + split; intro; nra.
    + split; intro; nra.
    + split; intro; nra.
    + intro; nra.
  - intros Hp. assert (E : Qltb 0 p = false).
    { destruct (Qltb 0 p) eqn:E; auto. apply Qltb_iff in E.
      exfalso. apply (Qlt_not_le _ _ E Hp). }
    now rewrite E.
Qed.

(** ** Tables of periods without orders *)

Lemma nlargest_None {A} (col : A -> Q) n rows : nlargest col n rows = None <-> rows = [].
Proof. destruct rows; simpl; split; congruence. Qed.

Lemma map_nil_iff {A B} (f : A -> B) l : map f l = [] <-> l = [].
Proof. destruct l; simpl; split; congruence. Qed.

Lemma all_keys_nil {R} (cur prev : list (string * R)) :
  all_keys cur prev = [] <-> cur = [] /\ prev = [].
Proof.
  unfold all_keys. split.
  - intro H0. apply app_eq_nil in H0 as [H1 H2].
    destruct cur as [|[k v] t]; [|discriminate].
    split; auto. rewrite filter_all in H2 by reflexivity.
    destruct prev as [|[k v] t]; [auto|discriminate].
  - intros [-> ->]. reflexivity.
Qed.

Lemma group_by_nil {X R} (key : X -> option string) (init : X -> R) acc xs :
  (forall x, key x <> None) -> group_by key init acc xs = [] <-> xs = [].
Proof.
  intros Hk. split; [|intros ->; reflexivity].
  intros H0. destruct xs as [|x t]; auto. exfalso.
  destruct (key x) as [k|] eqn:Ek; [|exact (Hk x Ek)].
  destruct (group_fold_keys key init acc (x :: t) [] (NoDup_nil _)) as [_ Hin].
  assert (Hk' : In k (map fst (group_by key init acc (x :: t))))
    by (apply Hin; right; exists x; split; [left|]; auto).
  rewrite H0 in Hk'. destruct Hk'.
Qed.

(** The line items of a list of orders. *)
Definition all_lines (orders : list order) : list order_line := List.concat (map order_lines orders).

(** [df.nlargest] on the DataFrame of an empty [comparison] raises
    [KeyError]: the customer tables and the growth tables fail exactly when
    neither period has an order, the product tables exactly when neither
    period has an order line. *)
Theorem empty_periods_raise (cur prev : list order) (ps : list product) (n : nat) :
  (get_top_customers_comparison cur prev n = None <-> cur = [] /\ prev = []) /\
  (fst (compare_customer_growth cur prev n) = None <-> cur = [] /\ prev = []) /\
  (snd (compare_customer_growth cur prev n) = None <-> cur = [] /\ prev = []) /\
  (get_top_products_comparison cur prev n = None <-> all_lines cur = [] /\ all_lines prev = []) /\
  (forall pc, product_costs ps = Some pc ->
     get_top_products_by_margin_comparison cur prev ps n = None <->
     all_lines cur = [] /\ all_lines prev = []).
Proof.
  assert (Hc : forall orders, get_customer_revenue orders = [] <-> orders = [])
    by (intros; apply group_by_nil; discriminate).
  assert (Hp : forall orders, get_product_revenue orders = [] <-> all_lines orders = [])
    by (intros; rewrite get_product_revenue_flat; apply group_by_nil; discriminate).
  assert (Hm : forall pc orders, get_product_margin pc orders = [] <-> all_lines orders = [])
    by (intros; rewrite get_product_margin_flat; apply group_by_nil; discriminate).
  assert (Hcust : compare_revenue (get_customer_revenue cur) (get_customer_revenue prev) = []
                  <-> cur = [] /\ prev = []).
  { unfold compare_revenue. rewrite map_nil_iff, all_keys_nil, Hc, Hc. reflexivity. }
  split; [|split; [|split; [|split]]].
  - unfold get_top_customers_comparison. now rewrite nlargest_None.
  - unfold compare_customer_growth. simpl. now rewrite nlargest_None.
  - unfold compare_customer_growth. simpl. now rewrite nlargest_None.
  - unfold get_top_products_comparison. rewrite nlargest_None.
    unfold compare_revenue. rewrite map_nil_iff, all_keys_nil, Hp, Hp. reflexivity.
  - intros pc Hpc. unfold get_top_products_by_margin_comparison. rewrite Hpc, nlargest_None.
    unfold compare_margin. rewrite map_nil_iff, all_keys_nil, Hm, Hm. reflexivity.
Qed.

(** ** The margin table groups lines as the revenue table does *)

Section GroupMap.
Context {X R S : Type} (key : X -> option string)
        (initR : X -> R) (accR : X -> R -> R) (initS : X -> S) (accS : X -> S -> S)
        (g : R -> S).
Hypothesis g_init : forall x, g (initR x) = initS x.
Hypothesis g_acc : forall x r, g (accR x r) = accS x (g r).

Definition map_values (d : list (string * R)) : list (string * S) :=
  map (fun kv => (fst kv, g (snd kv))) d.

Lemma get_map_values k d : Dict.get k (map_values d) = option_map g (Dict.get k d).
Proof.
  induction d as [|[k' v] t IH]; simpl; auto.
  destruct (String.eqb k k'); auto.
Qed.

Lemma set_map_values k v d : Dict.set k (g v) (map_values d) = map_values (Dict.set k v d).
Proof.
  induction d as [|[k' v'] t IH]; simpl; auto.
  destruct (String.eqb k k'); simpl; now rewrite ?IH.
Qed.

Lemma update_map_values k x d :
  Dict.update k (accS x) (map_values d) = map_values (Dict.update k (accR x) d).
Proof.
  induction d as [|[k' v'] t IH]; simpl; auto.
  destruct (String.eqb k k'); simpl; now rewrite ?IH, ?g_acc.
Qed.

Lemma group_step_map_values d x :
  group_step key initS accS (map_values d) x = map_values (group_step key initR accR d x).
Proof.
  unfold group_step. destruct (key x) as [k|]; auto.
  unfold Dict.mem. rewrite get_map_values.
  destruct (Dict.get k d); simpl; rewrite <- update_map_values; auto.
  now rewrite <- g_init, set_map_values.
Qed.

Lemma group_by_map_values xs :
  group_by key initS accS xs = map_values (group_by key initR accR xs).
Proof.
  unfold group_by. change (@nil (string * S)) with (map_values []).
  generalize (@nil (string * R)). induction xs as [|x t IH]; intros d; simpl; auto.
  now rewrite group_step_map_values, IH.
Qed.

End GroupMap.

(** [get_product_margin] of [get_top_products_by_margin_comparison] and
    [get_product_revenue] of [get_top_products_comparison] build the same
    groups: the same product codes in the same order, the same names, and
    each product's [revenue] in the margin table is its revenue in the
    revenue table, whatever the purchase prices. *)
Theorem margin_groups_match_revenue_groups (pc : list (string * Q)) (orders : list order) :
  map (fun kv => (fst kv, {| name := m_name (snd kv); revenue := m_revenue (snd kv) |}))
      (get_product_margin pc orders)
  = get_product_revenue orders.
Proof.
  rewrite get_product_margin_flat, get_product_revenue_flat.
  symmetry. apply (group_by_map_values _ _ _ _ _
                    (fun r => {| name := m_name r; revenue := m_revenue r |}));
    reflexivity.
Qed.

(** ** [nlargest] selects the top rows *)

Section TopRows.
Context {A : Type} (col : A -> Q).

Lemma insert_desc_perm x l : Permutation (insert_desc col x l) (x :: l).
Proof.
  induction l as [|y t IH]; simpl; auto.
  destruct (Qle_bool (col x) (col y)); auto.
  rewrite IH. apply perm_swap.
Qed.

Lemma sort_desc_perm rows : Permutation (sort_desc col rows) rows.
Proof.
  unfold sort_desc. rewrite <- (app_nil_r rows) at 2.
  generalize (@nil A). induction rows as [|x t IH]; intros acc; simpl; auto.
  rewrite IH, insert_desc_perm. symmetry. apply Permutation_middle.
Qed.

Lemma strongly_sorted_app (l1 l2 : list A) :
  StronglySorted (desc col) (l1 ++ l2) ->
  forall x y, In x l1 -> In y l2 -> col y <= col x.
Proof.
  induction l1 as [|a t IH]; simpl; intros Hs x y Hx Hy; [destruct Hx|].
  inversion Hs as [|? ? Hs' Hall]; subst.
  destruct Hx as [<-|Hx]; [|now apply IH].
  rewrite Forall_forall in Hall. apply Hall, in_or_app. now right.
Qed.

End TopRows.

(** [nlargest col n rows] keeps [min n (length rows)] of the rows, in
    decreasing [col] order, and no row it drops has a larger [col] than a
    row it keeps. *)
Theorem nlargest_top_rows {A} (col : A -> Q) (n : nat) (rows out : list A) :
  nlargest col n rows = Some out ->
  exists rest,
    Permutation rows (out ++ rest) /\ List.length out = Nat.min n (List.length rows) /\
    Sorted (desc col) out /\
    (forall x y, In x out -> In y rest -> col y <= col x).
Proof.
  intros Hn. pose proof (nlargest_sorted col n rows out Hn) as Hs.
  unfold nlargest in Hn. destruct rows as [|r0 rs]; [discriminate|].
  injection Hn as <-.
  set (rows := r0 :: rs) in *.
  exists (skipn n (sort_desc col rows)).
  split; [|split; [|split]].
  - rewrite firstn_skipn. symmetry. apply sort_desc_perm.
  - rewrite length_firstn, (Permutation_length (sort_desc_perm col rows)). reflexivity.
  - exact Hs.
  - apply strongly_sorted_app.
    rewrite firstn_skipn. apply Sorted_StronglySorted.
    + intros a b c Hab Hbc. unfold desc in *. eapply Qle_trans; eauto.
    + apply sort_desc_sorted.
Qed.

Lemma nlargest_top_rows_witness :
  exists rest,
    Permutation [1; 3; 2] ([3; 2] ++ rest) /\
    List.length [3; 2] = Nat.min 2 (List.length [1; 3; 2]) /\
    Sorted (desc (fun q : Q => q)) [3; 2] /\
    (forall x y, In x [3; 2] -> In y rest -> y <= x).
Proof.
  apply (nlargest_top_rows (fun q : Q => q) 2 [1; 3; 2] [3; 2]).
  vm_compute. reflexivity.
Defined.

(** ** The [Refresh Data] button empties the cache *)

Lemma star_pkl_key (key : string) :
  ~ In "/"%char (list_ascii_of_string key) -> star_pkl (String.append key ".pkl") = true.
Proof.
  induction key as [|c t IH]; intros Hs; [reflexivity|].
  simpl in Hs. simpl String.append. cbn [star_pkl].
  rewrite IH by tauto.
  destruct (Ascii.eqb_spec c "/") as [E|]; [subst; tauto|].
  apply orb_true_r.
Qed.

Lemma in_cache_glob_key (key : string) :
  ~ In "/"%char (list_ascii_of_string key) -> in_cache_glob (get_cache_file key) = true.
Proof. intros Hs. unfold in_cache_glob, get_cache_file. simpl. now apply star_pkl_key. Qed.

Lemma get_filter_keys {A} (p : string -> bool) k (d : list (string * A)) :
  Dict.get k (filter (fun f => p (fst f)) d) = if p k then Dict.get k d else None.
Proof.
  induction d as [|[k' v] t IH]; simpl; [now destruct (p k)|].
  destruct (String.eqb_spec k k') as [->|Hne].
  - destruct (p k') eqn:E; simpl; [now rewrite String.eqb_refl|exact IH].
  - destruct (p k'); simpl; [|exact IH].
    apply String.eqb_neq in Hne. now rewrite Hne.
Qed.

(** After [Refresh Data], a cache key (no [/] in it, as the date-based
    keys of the fetch operations) whose file could be deleted is a cache
    miss; a file outside [.cache/*.pkl], or whose deletion failed, is kept. *)
Theorem refresh_clears_cache {Item} (unlink_ok : string -> bool) (w : world Item) :
  (forall key max_age_hours, ~ In "/"%char (list_ascii_of_string key) ->
     unlink_ok (get_cache_file key) = true ->
     load_from_cache key max_age_hours (refresh_cache unlink_ok w) =
       (Ok None, refresh_cache unlink_ok w)) /\
  (forall path, in_cache_glob path && unlink_ok path = false ->
     Dict.get path (files (refresh_cache unlink_ok w)) = Dict.get path (files w)).
Proof.
  split.
  - intros key h Hs Hu. unfold load_from_cache. cbv zeta.
    unfold refresh_cache at 1. unfold with_files at 1. cbn [files].
    rewrite (get_filter_keys (fun p => negb (in_cache_glob p && unlink_ok p))).
    now rewrite in_cache_glob_key, Hu by exact Hs.
  - intros path Hp. unfold refresh_cache, with_files. cbn [files].
    rewrite (get_filter_keys (fun p => negb (in_cache_glob p && unlink_ok p))).
    now rewrite Hp.
Qed.

(** ** The [Last updated] text *)

Lemma minutes_ago_floor (s : Q) : 0 <= s -> minutes_ago s = Qfloor (s / 60).
Proof.
  destruct s as [n d]. unfold Qle. simpl. intros Hn.
  unfold minutes_ago, Qfloor, Qdiv, Qmult, Qinv. simpl.
  rewrite Z.mul_1_r, Pos2Z.inj_mul. apply Z.quot_div_nonneg; lia.
Qed.

Lemma hours_ago_floor (s : Q) : 0 <= s -> (minutes_ago s / 60)%Z = Qfloor (s / 3600).
Proof.
  intros Hs. rewrite minutes_ago_floor by exact Hs.
  destruct s as [n d]. unfold Qfloor, Qdiv, Qmult, Qinv. simpl.
  rewrite !Z.mul_1_r, !Pos2Z.inj_mul, Z.div_div by lia.
  now rewrite <- Z.mul_assoc.
Qed.

(** [time_str] reads "just now" for an age under a minute (either way),
    the whole minutes, 1 to 59, below an hour, and the whole hours from an
    hour on, with "s" unless the count is 1; an age of minus a minute or
    more (a clock set back) gives a negative count of minutes. *)
Theorem time_str_cases (s : Q) :
  (-60 < s < 60 -> time_str s = "just now") /\
  (60 <= s < 3600 ->
     (1 <= Qfloor (s / 60) <= 59)%Z /\
     time_str s = String.append (str_Z (Qfloor (s / 60)))
                    (String.append " minute"
                       (String.append (if (Qfloor (s / 60) =? 1)%Z then "" else "s") " ago"))) /\
  (3600 <= s ->
     time_str s = String.append (str_Z (Qfloor (s / 3600)))
                    (String.append " hour"
                       (String.append (if (Qfloor (s / 3600) =? 1)%Z then "" else "s") " ago"))) /\
  (s <= -60 -> exists m, (m < 0)%Z /\
     time_str s = String.append (str_Z m) (String.append " minute" (String.append "s" " ago"))).
Proof.
  assert (Hq : forall n d, minutes_ago (n # d) = Z.quot n (Zpos d * 60)) by reflexivity.
  destruct s as [n d].
  unfold time_str. rewrite Hq.
  split; [|split; [|split]].
  - intros [H1 H2]. unfold Qlt in *. cbn [Qnum Qden] in *. replace (Z.quot n (Zpos d * 60)) with 0%Z; [reflexivity|].
    symmetry. apply Z.quot_small_iff; lia.
  - intros [H1 H2]. unfold Qlt, Qle in H1, H2. cbn [Qnum Qden] in H1, H2.
    assert (Hnn : 0 <= n # d) by (unfold Qle; simpl; lia).
    pose proof (minutes_ago_floor _ Hnn) as Hm. rewrite Hq in Hm. rewrite Hm.
    assert (Hb : (1 <= Qfloor ((n # d) / 60) <= 59)%Z).
    { rewrite <- Hm. split.
      - apply Z.quot_le_lower_bound; lia.
      - apply Z.lt_succ_r, Z.quot_lt_upper_bound; lia. }
    split; [exact Hb|].
    replace (Qfloor ((n # d) / 60) =? 0)%Z with false by (symmetry; apply Z.eqb_neq; lia).
    replace (Qfloor ((n # d) / 60) <? 60)%Z with true by (symmetry; apply Z.ltb_lt; lia).
    now destruct (Qfloor ((n # d) / 60) =? 1)%Z.
  - intros H1. unfold Qle in H1. cbn [Qnum Qden] in H1.
    assert (Hnn : 0 <= n # d) by (unfold Qle; simpl; lia).
    pose proof (hours_ago_floor _ Hnn) as Hh. rewrite Hq in Hh.
    assert (Hm : (60 <= Z.quot n (Zpos d * 60))%Z) by (apply Z.quot_le_lower_bound; lia).
    replace (Z.quot n (Zpos d * 60) =? 0)%Z with false by (symmetry; apply Z.eqb_neq; lia).
    replace (Z.quot n (Zpos d * 60) <? 60)%Z with false by (symmetry; apply Z.ltb_ge; lia).
    cbv zeta. rewrite Hh. now destruct (Qfloor ((n # d) / 3600) =? 1)%Z.
  - intros H1. unfold Qle in H1. cbn [Qnum Qden] in H1. exists (Z.quot n (Zpos d * 60)).
    assert (Hm : (Z.quot n (Zpos d * 60) <= -1)%Z).
    { rewrite <- (Z.opp_involutive n), Z.quot_opp_l by lia.
      assert (1 <= Z.quot (- n) (Zpos d * 60))%Z by (apply Z.quot_le_lower_bound; lia).
      lia. }
    split; [lia|].
    replace (Z.quot n (Zpos d * 60) =? 0)%Z with false by (symmetry; apply Z.eqb_neq; lia).
    replace (Z.quot n (Zpos d * 60) <? 60)%Z with true by (symmetry; apply Z.ltb_lt; lia).
    replace (Z.quot n (Zpos d * 60) =? 1)%Z with false by (symmetry; apply Z.eqb_neq; lia).
    reflexivity.
Qed.

(** ** A fetch that missed the cache is served from it for two hours *)

Section CacheReuse.
Context {Item : Type} `{Crypto}.
Local Open Scope Z_scope.

Lemma cached_fetch_reuse key endpoint params (fuel fuel' : nat) self (w w1 w2 : world Item) data :
  let fetch fuel :=
    (cached_data <- load_from_cache key 2 ;;
     match cached_data with
     | Some d => ret d
     | None =>
         data <- get_all_pages fuel self endpoint params ;;
         _ <- save_to_cache key data ;;
         ret data
     end) in
  fst (load_from_cache key 2 w) = Ok None ->
  fetch fuel w = (Ok data, w1) ->
  disk w (get_cache_file key) = WriteOk ->
  Dict.get (get_cache_file key) (files w2) = Dict.get (get_cache_file key) (files w1) ->
  clock w2 - clock w < 2 * 3600 ->
  fetch fuel' w2 = (Ok data, w2).
Proof.
  intros fetch Hmiss Hrun Hdisk Hget Hclock. unfold fetch in *.
  unfold bind at 1 in Hrun.
  destruct (load_from_cache_pure key 2 w) as [v Hv]. rewrite Hv in Hrun, Hmiss.
  cbn [fst] in Hmiss. injection Hmiss as ->.
  unfold bind, get_all_pages in Hrun.
  destruct (get_all_pages_loop fuel self endpoint params 1 [] w) as [r1 w1'] eqn:E.
  destruct (loop_shape fuel self endpoint params 1 [] w r1 w1' E) as [Hw _].
  destruct r1 as [data'|e]; [|discriminate].
  unfold save_to_cache in Hrun. cbv zeta in Hrun.
  rewrite Hw in Hrun. cbn [disk with_sent] in Hrun. rewrite Hdisk in Hrun.
  unfold ret in Hrun. injection Hrun as <- <-.
  unfold with_files in Hget. cbn [files with_sent] in Hget. rewrite get_set_same in Hget.
  unfold bind at 1, load_from_cache. cbv zeta. rewrite Hget. cbn [mtime contents clock with_sent].
  replace (clock w2 - clock w <? 2 * 3600) with true by (symmetry; apply Z.ltb_lt; lia).
  reflexivity.
Qed.

(** Once [get_sales_orders], [get_products] or [get_credit_notes] has
    missed the cache, fetched its list and written it to a writable cache
    file, the same call made less than two hours later (by the clock at the
    first call), with the cache file unchanged, returns the same list
    without sending any request or changing anything, whatever fuel it has. *)
Theorem fetch_reuses_cache (fuel fuel' : nat) self (w w1 w2 : world Item) :
  (forall start_date end_date data,
     let key := String.append "sales_orders_" (String.append start_date (String.append "_" end_date)) in
     fst (load_from_cache key 2 w) = Ok None ->
     get_sales_orders fuel self start_date end_date w = (Ok data, w1) ->
     disk w (get_cache_file key) = WriteOk ->
     Dict.get (get_cache_file key) (files w2) = Dict.get (get_cache_file key) (files w1) ->
     clock w2 - clock w < 2 * 3600 ->
     get_sales_orders fuel' self start_date end_date w2 = (Ok data, w2)) /\
  (forall data,
     fst (load_from_cache "products_all" 2 w) = Ok None ->
     get_products fuel self w = (Ok data, w1) ->
     disk w (get_cache_file "products_all") = WriteOk ->
     Dict.get (get_cache_file "products_all") (files w2) =
       Dict.get (get_cache_file "products_all") (files w1) ->
     clock w2 - clock w < 2 * 3600 ->
     get_products fuel' self w2 = (Ok data, w2)) /\
  (forall start_date end_date data,
     let key := String.append "credit_notes_" (String.append start_date (String.append "_" end_date)) in
     fst (load_from_cache key 2 w) = Ok None ->
     get_credit_notes fuel self start_date end_date w = (Ok data, w1) ->
     disk w (get_cache_file key) = WriteOk ->
     Dict.get (get_cache_file key) (files w2) = Dict.get (get_cache_file key) (files w1) ->
     clock w2 - clock w < 2 * 3600 ->
     get_credit_notes fuel' self start_date end_date w2 = (Ok data, w2)).
Proof.
  split; [|split].
  - intros s e data key. unfold get_sales_orders. cbv zeta.
    apply cached_fetch_reuse.
  - intros data. unfold get_products. cbv zeta. apply cached_fetch_reuse.
  - intros s e data key. unfold get_credit_notes. cbv zeta.
    apply cached_fetch_reuse.
Qed.

End CacheReuse.

(** A one-page endpoint, and the same world an hour later. *)
Definition one_page_world : world nat :=
  {| clock := 0; files := []; disk := fun _ => WriteOk; sent := [];
     respond := fun _ _ => HttpResponse 200 (Some {| Items := Some [7%nat]; Pagination := None |}) |}.

Definition an_hour_later (w : world nat) : world nat :=
  {| clock := (clock w + 3600)%Z; files := files w; disk := disk w; respond := respond w; sent := sent w |}.

Lemma fetch_reuses_cache_witness :
  let w1 := snd (get_sales_orders 1 demo_api "2024-01-01" "2024-01-31" one_page_world) in
  get_sales_orders 1 demo_api "2024-01-01" "2024-01-31" one_page_world = (Ok [7%nat], w1) /\
  get_sales_orders 0 demo_api "2024-01-01" "2024-01-31" (an_hour_later w1) =
    (Ok [7%nat], an_hour_later w1).
Proof.
  intros w1. split; [vm_compute; reflexivity|].
  apply (proj1 (fetch_reuses_cache 1 0 demo_api one_page_world w1 (an_hour_later w1))
           "2024-01-01" "2024-01-31" [7%nat]).
  - vm_compute. reflexivity.
  - vm_compute. reflexivity.
  - vm_compute. reflexivity.
  - reflexivity.
  - vm_compute. reflexivity.
Defined.

(** ** Excluded customers never reach the customer tables *)

Section Excluded.
Context {Item : Type} `{Crypto} (code : Item -> option string).

Lemma load_data_ready fuel api cs ce ps pe (w w' : world Item) a b c d e :
  load_data code fuel api cs ce ps pe w = (Ok (LoadReady a b c d e), w') ->
  exists l1 l2 l4 l5,
    a = filter (not_excluded code) l1 /\ b = filter (not_excluded code) l2 /\
    d = filter (not_excluded code) l4 /\ e = filter (not_excluded code) l5.
Proof.
  unfold load_data, bind. intros Hr.
  destruct (get_sales_orders fuel api cs ce w) as [[l1|e1] w1];
  [destruct (get_sales_orders fuel api ps pe w1) as [[l2|e2] w2];
   [destruct (get_products fuel api w2) as [[l3|e3] w3];
    [destruct (get_credit_notes fuel api cs ce w3) as [[l4|e4] w4];
     [destruct (get_credit_notes fuel api ps pe w4) as [[l5|e5] w5]|]|]|]|];
  unfold ret in Hr; try discriminate.
  injection Hr as Ha Hb Hc Hd He _.
  exists l1, l2, l4, l5. repeat split; congruence.
Qed.

Lemma not_excluded_code x :
  not_excluded code x = true -> forall k, code x = Some k -> ~ In k EXCLUDED_CUSTOMERS.
Proof.
  unfold not_excluded. intros Hx k Hk Hin. rewrite Hk in Hx.
  apply negb_true_iff in Hx.
  assert (existsb (String.eqb k) EXCLUDED_CUSTOMERS = true)
    by (apply existsb_exists; exists k; split; [exact Hin|apply String.eqb_refl]).
  congruence.
Qed.

Lemma filter_not_excluded l x :
  In x (filter (not_excluded code) l) -> forall k, code x = Some k -> ~ In k EXCLUDED_CUSTOMERS.
Proof. intros Hx. apply filter_In in Hx. apply not_excluded_code, Hx. Qed.

End Excluded.

Lemma customer_revenue_keys orders k :
  In k (map fst (get_customer_revenue orders)) <-> exists o, In o orders /\ customer_code o = k.
Proof.
  unfold get_customer_revenue, group_by.
  rewrite (proj2 (group_fold_keys _ _ _ orders [] (NoDup_nil _)) k).
  simpl. split.
  - intros [[]|[o [Ho Hk]]]. injection Hk as Hk. eauto.
  - intros [o [Ho Hk]]. right. exists o. now rewrite Hk.
Qed.

(** When the data-load step of [main] yields data, no order or credit note
    of either period has a customer code in [EXCLUDED_CUSTOMERS], and no
    customer group of the customer comparison (the same groups as the growth
    tables) is keyed by an excluded code. *)
Theorem excluded_customers_filtered fuel api cs ce ps pe (w w' : world order) a b c d e :
  load_data (fun o => CustomerCode (customer_of o)) fuel api cs ce ps pe w =
    (Ok (LoadReady a b c d e), w') ->
  (forall o k, In o (a ++ b ++ d ++ e) -> CustomerCode (customer_of o) = Some k ->
     ~ In k EXCLUDED_CUSTOMERS) /\
  (forall k, In k (all_keys (get_customer_revenue a) (get_customer_revenue b)) ->
     ~ In k EXCLUDED_CUSTOMERS).
Proof.
  intros Hr.
  destruct (load_data_ready _ fuel api cs ce ps pe w w' a b c d e Hr)
    as [l1 [l2 [l4 [l5 [-> [-> [-> ->]]]]]]].
  assert (Hall : forall o k, In o (filter (not_excluded (fun o => CustomerCode (customer_of o))) l1 ++
                                  filter (not_excluded (fun o => CustomerCode (customer_of o))) l2 ++
                                  filter (not_excluded (fun o => CustomerCode (customer_of o))) l4 ++
                                  filter (not_excluded (fun o => CustomerCode (customer_of o))) l5) ->
                 CustomerCode (customer_of o) = Some k -> ~ In k EXCLUDED_CUSTOMERS).
  { intros o k Ho. rewrite !in_app_iff in Ho.
    destruct Ho as [Ho|[Ho|[Ho|Ho]]];
      exact (filter_not_excluded (fun o => CustomerCode (customer_of o)) _ o Ho k). }
  split; [exact Hall|].
  assert (Hcust : forall o, In o (filter (not_excluded (fun o => CustomerCode (customer_of o))) l1 ++
                                  filter (not_excluded (fun o => CustomerCode (customer_of o))) l2) ->
                  ~ In (customer_code o) EXCLUDED_CUSTOMERS).
  { intros o Ho. unfold customer_code.
    destruct (CustomerCode (customer_of o)) as [k|] eqn:Ek.
    - apply (Hall o k); [|exact Ek]. rewrite !in_app_iff in *. tauto.
    - simpl. intros [Hu|[Hu|[]]]; discriminate. }
  intros k Hk. unfold all_keys in Hk. apply in_app_iff in Hk.
  destruct Hk as [Hk|Hk]; [|apply filter_In in Hk; destruct Hk as [Hk _]];
  apply customer_revenue_keys in Hk; destruct Hk as [o [Ho <-]];
  apply Hcust; apply in_app_iff; tauto.
Qed.

(** An endpoint that answers every request with one page holding
    [order_A100]. *)
Definition one_order_world : world order :=
  {| clock := 0; files := []; disk := fun _ => WriteOk; sent := [];
     respond := fun _ _ => HttpResponse 200 (Some {| Items := Some [order_A100]; Pagination := None |}) |}.

Lemma excluded_customers_filtered_witness :
  let w' := snd (load_data (fun o => CustomerCode (customer_of o)) 1 demo_api
                   "2024-02-01" "2024-02-29" "2024-01-01" "2024-01-31" one_order_world) in
  load_data (fun o => CustomerCode (customer_of o)) 1 demo_api
    "2024-02-01" "2024-02-29" "2024-01-01" "2024-01-31" one_order_world =
    (Ok (LoadReady [order_A100] [order_A100] [order_A100] [order_A100] [order_A100]), w') /\
  ~ In "A" EXCLUDED_CUSTOMERS.
Proof.
  intros w'. split; [vm_compute; reflexivity|].
  apply (proj2 (excluded_customers_filtered 1 demo_api "2024-02-01" "2024-02-29"
                  "2024-01-01" "2024-01-31" one_order_world w'
                  [order_A100] [order_A100] [order_A100] [order_A100] [order_A100]
                  ltac:(vm_compute; reflexivity))).
  vm_compute. left. reflexivity.
Defined.

(** ** [urlencode] never gives two parameter lists the same query string *)

(** A decoder for the output of [urlencode], used to prove it injective:
    split on [&], then on [=], then undo [quote_plus]. *)
Definition hex_value (c : ascii) : nat :=
  let n := nat_of_ascii c in if Nat.leb 65 n then (n - 55)%nat else (n - 48)%nat.

Fixpoint unquote_plus (s : string) : string :=
  match s with
  | EmptyString => EmptyString
  | String c t =>
      if Ascii.eqb c "+" then String " " (unquote_plus t)
      else if Ascii.eqb c "%" then
        match t with
        | String h1 (String h2 t') =>
            String (ascii_of_nat (hex_value h1 * 16 + hex_value h2)) (unquote_plus t')
        | _ => String c (unquote_plus t)
        end
      else String c (unquote_plus t)
  end.

Fixpoint has_char (sep : ascii) (s : string) : bool :=
  match s with
  | EmptyString => false
  | String c t => Ascii.eqb c sep || has_char sep t
  end.

Fixpoint split_on (sep : ascii) (s : string) : list string :=
  match s with
  | EmptyString => [EmptyString]
  | String c t =>
      if Ascii.eqb c sep then EmptyString :: split_on sep t
      else match split_on sep t with
           | x :: r => String c x :: r
           | [] => [String c EmptyString]
           end
  end.

Definition decode_pair (seg : string) : string * string :=
  match split_on "=" seg with
  | [k; v] => (unquote_plus k, unquote_plus v)
  | _ => (unquote_plus seg, EmptyString)
  end.

Definition decode_query (s : string) : list (string * string) :=
  if String.eqb s "" then [] else map decode_pair (split_on "&" s).

Lemma append_empty_r (s : string) : String.append s "" = s.
Proof. induction s as [|c t IH]; simpl; congruence. Qed.

Lemma has_char_app sep a b : has_char sep (String.append a b) = has_char sep a || has_char sep b.
Proof. induction a as [|c t IH]; simpl; [reflexivity|]. now rewrite IH, orb_assoc. Qed.

Lemma quote_plus_cons c t :
  quote_plus (String c t) = String.append (quote_plus (String c EmptyString)) (quote_plus t).
Proof. cbn [quote_plus]. now rewrite append_empty_r. Qed.

Lemma unquote_quote_char c t :
  unquote_plus (quote_plus (String c t)) = String c (unquote_plus (quote_plus t)).
Proof.
  rewrite quote_plus_cons. generalize (quote_plus t) as r. intros r.
  destruct c as [[] [] [] [] [] [] [] []]; reflexivity.
Qed.

Lemma unquote_quote s : unquote_plus (quote_plus s) = s.
Proof. induction s as [|c t IH]; [reflexivity|]. now rewrite unquote_quote_char, IH. Qed.

Lemma quote_plus_char_sep c :
  has_char "&" (quote_plus (String c EmptyString)) = false /\
  has_char "=" (quote_plus (String c EmptyString)) = false.
Proof. destruct c as [[] [] [] [] [] [] [] []]; split; reflexivity. Qed.

Lemma quote_plus_sep s :
  has_char "&" (quote_plus s) = false /\ has_char "=" (quote_plus s) = false.
Proof.
  induction s as [|c t IH]; [split; reflexivity|].
  rewrite quote_plus_cons, !has_char_app.
  destruct (quote_plus_char_sep c) as [H1 H2]. rewrite H1, H2. exact IH.
Qed.

Lemma split_on_no_sep sep a : has_char sep a = false -> split_on sep a = [a].
Proof.
  induction a as [|c t IH]; simpl; [reflexivity|].
  intros H. apply orb_false_iff in H. destruct H as [H1 H2].
  rewrite H1, IH by exact H2. reflexivity.
Qed.

Lemma split_on_app sep a b :
  has_char sep a = false -> split_on sep (String.append a (String sep b)) = a :: split_on sep b.
Proof.
  induction a as [|c t IH]; simpl; intros H.
  - now rewrite Ascii.eqb_refl.
  - apply orb_false_iff in H. destruct H as [H1 H2].
    rewrite H1, IH by exact H2. reflexivity.
Qed.

Lemma split_on_concat sep l :
  l <> [] -> Forall (fun x => has_char sep x = false) l ->
  split_on sep (String.concat (String sep EmptyString) l) = l.
Proof.
  induction l as [|x [|y r] IH]; intros Hne Hall; [congruence| |].
  - inversion Hall; subst. simpl. now apply split_on_no_sep.
  - inversion Hall as [|? ? Hx Hr]; subst.
    change (String.concat (String sep "") (x :: y :: r))
      with (String.append x (String sep (String.concat (String sep "") (y :: r)))).
    rewrite split_on_app by exact Hx. rewrite IH; [reflexivity|discriminate|exact Hr].
Qed.

Lemma decode_encode_pair k v :
  decode_pair (String.append (quote_plus k) (String.append "=" (quote_plus v))) = (k, v).
Proof.
  unfold decode_pair. simpl String.append at 2.
  rewrite split_on_app by apply quote_plus_sep.
  rewrite split_on_no_sep by apply quote_plus_sep.
  now rewrite !unquote_quote.
Qed.

Lemma decode_urlencode params : decode_query (urlencode params) = params.
Proof.
  destruct params as [|[k v] r]; [reflexivity|].
  unfold decode_query, urlencode.
  assert (Hne : String.eqb
                  (String.concat "&" (map (fun kv => String.append (quote_plus (fst kv))
                     (String.append "=" (quote_plus (snd kv)))) ((k, v) :: r))) "" = false).
  { destruct r as [|kv r]; simpl; destruct (quote_plus k); reflexivity. }
  rewrite Hne. change "&" with (String "&" EmptyString).
  rewrite split_on_concat.
  - rewrite map_map. erewrite map_ext; [apply map_id|].
    intros [a b]. apply decode_encode_pair.
  - discriminate.
  - apply Forall_forall. intros x Hx. apply in_map_iff in Hx.
    destruct Hx as [[a b] [<- _]]. simpl.
    rewrite has_char_app. simpl. rewrite (proj1 (quote_plus_sep a)), (proj1 (quote_plus_sep b)).
    reflexivity.
Qed.

(** Two parameter lists [urlencode] maps to the same query string are equal
    (same keys, values and order): a query string, hence the signed message
    and the URL of [_make_request], determines its parameters. *)
Theorem urlencode_injective (p1 p2 : list (string * string)) :
  urlencode p1 = urlencode p2 -> p1 = p2.
Proof.
  intros H. rewrite <- (decode_urlencode p1), <- (decode_urlencode p2). now rewrite H.
Qed.

Lemma urlencode_injective_witness :
  urlencode [("completedAfter", "2024-01-01"); ("page", "1")] =
    "completedAfter=2024-01-01&page=1" /\
  [("completedAfter", "2024-01-01"); ("page", "1")] =
    [("completedAfter", "2024-01-01"); ("page", "1")].
Proof.
  split; [vm_compute; reflexivity|].
  apply urlencode_injective. reflexivity.
Defined.
